(** * LODvisual: sampling and aggregation of linked-data fragments

    A shallow embedding of [index.js] and of its extended variant (the
    script with [process] and the merging [reduce]), and the properties of
    the page sampling, the host counting, the choice of the dominant host
    and the merge of the datasets.

    Modelling conventions.
    - A JavaScript object used as a dictionary is the list of its own
      properties in iteration order (insertion order).  The host maps are
      plain objects, so a read of a name that is not an own property goes
      on to [Object.prototype]; its properties are listed below.
    - Numbers that the script only adds and compares (counts, triple
      totals) are integers of [Z]; the page arithmetic, which divides, is
      carried out on exact rationals of [Q], so the rounding of IEEE
      doubles is idealised away; [NaN] is written [None] where the script
      can produce it.  A value of a host map is a number or, once an
      inherited value was added to, a string.
    - Objects that are shared and mutated in place (the host maps) live in
      a heap of locations; records that are never aliased are plain values.
    - Calls of the libraries [request], [n3] and [url-parse] are parameters. *)

From Stdlib Require Import ZArith QArith Qround Lia Lqa List Permutation Ascii.
From stdpp Require Import pretty base list strings functions.

Local Open Scope Z_scope.
Local Open Scope string_scope.

(** ** JavaScript objects as dictionaries *)

Abbreviation Obj V := (list (string * V)).

(** [Object.keys(o)], also the order of [for (key in o)]. *)
Definition obj_keys {V} (o : Obj V) : list string := map fst o.

(** [o[key]]; [None] is [undefined]. *)
Fixpoint obj_get {V} (o : Obj V) (key : string) : option V :=
  match o with
  | [] => None
  | (k, v) :: rest => if decide (k = key) then Some v else obj_get rest key
  end.

(** [o[key] = v]: an existing property keeps its place, a new one is added
    last. *)
Fixpoint obj_set {V} (o : Obj V) (key : string) (v : V) : Obj V :=
  match o with
  | [] => [(key, v)]
  | (k, w) :: rest =>
      if decide (k = key) then (k, v) :: rest else (k, w) :: obj_set rest key v
  end.

(** [delete o[key]]. *)
Definition obj_delete {V} (o : Obj V) (key : string) : Obj V :=
  filter (fun kv => fst kv ≠ key) o.

(** Property names are strings: [o[null]] is [o["null"]]. *)
Definition toPropertyKey (k : option string) : string :=
  match k with
  | Some s => s
  | None => "null"
  end.

(** ** The values of a host map *)

(** What the scripts store in a host map: a number, or a string.  A string
    comes about only by [+] with a value inherited from [Object.prototype]
    and holds the text of that value, so it is no numeral and converts to
    [NaN]. *)
Inductive Prim :=
| Number (n : Z)
| Text (s : string).

(** The decimal text of a number, as [+] with a string prints it (an
    integer below [10^21]; the counts stay far below). *)
Definition decimal (n : Z) : string := pretty n.

Definition toText (v : Prim) : string :=
  match v with
  | Number n => decimal n
  | Text s => s
  end.

(** [a + b]: the sum of two numbers, else the two texts one after the
    other. *)
Definition plus (a b : Prim) : Prim :=
  match a, b with
  | Number x, Number y => Number (x + y)
  | _, _ => Text (toText a ++ toText b)
  end.

(** The properties of [Object.prototype], each with the text that its
    value turns into under [+]: the functions print as native code, and
    the accessor [__proto__] gives [Object.prototype] itself. *)
Definition objectPrototype : Obj string :=
  [ ("constructor", "function Object() { [native code] }");
    ("__defineGetter__", "function __defineGetter__() { [native code] }");
    ("__defineSetter__", "function __defineSetter__() { [native code] }");
    ("hasOwnProperty", "function hasOwnProperty() { [native code] }");
    ("__lookupGetter__", "function __lookupGetter__() { [native code] }");
    ("__lookupSetter__", "function __lookupSetter__() { [native code] }");
    ("isPrototypeOf", "function isPrototypeOf() { [native code] }");
    ("propertyIsEnumerable", "function propertyIsEnumerable() { [native code] }");
    ("toString", "function toString() { [native code] }");
    ("valueOf", "function valueOf() { [native code] }");
    ("__proto__", "[object Object]");
    ("toLocaleString", "function toLocaleString() { [native code] }") ].

Definition inheritedText (key : string) : option string :=
  obj_get objectPrototype key.

(** [o[key] || 0] as the left operand of [+], from the own property of
    that name, if there is one: an own [0] or empty string is falsy and
    gives [0]; without own property the read finds the inherited value,
    which is an object or a function and so truthy, or [undefined], which
    gives [0]. *)
Definition operand (key : string) (own : option Prim) : Prim :=
  match own with
  | Some (Number n) => Number n
  | Some (Text s) => if decide (s = "") then Number 0 else Text s
  | None =>
      match inheritedText key with
      | Some t => Text t
      | None => Number 0
      end
  end.

Definition orZero (o : Obj Prim) (key : string) : Prim :=
  operand key (obj_get o key).

(** [o[key] = v] for a number or string [v]: the setter of the inherited
    [__proto__] drops a value that is no object, so nothing is stored
    under that name. *)
Definition assign (o : Obj Prim) (key : string) (v : Prim) : Obj Prim :=
  if decide (key = "__proto__" ∧ obj_get o key = None) then o
  else obj_set o key v.

(** The count that a value is: a string is none. *)
Definition countOf (v : Prim) : Z :=
  match v with
  | Number n => n
  | Text _ => 0
  end.

(** The sum of the counts of a host map. *)
Definition total (o : Obj Prim) : Z := foldr Z.add 0 (map (fun kv => countOf (snd kv)) o).

(** ** Page sampling (the arithmetic of [analyseData]) *)

Module PageSampler.
Section Sampler.

(** [var SAMPLING_FACTOR = 0.5] in [index.js], [0.05] in the variant. *)
Variable SAMPLING_FACTOR : Q.

(** [Math.ceil(numTriples / 100.)] *)
Definition maxPage (numTriples : Z) : Z :=
  Qceiling (inject_Z numTriples / 100)%Q.

(** [Math.ceil(numTriples * SAMPLING_FACTOR / 100)] *)
Definition pagesToSample (numTriples : Z) : Z :=
  Qceiling (inject_Z numTriples * SAMPLING_FACTOR / 100)%Q.

(** [maxPage / pagesToSample].  When [pagesToSample] is [0] JavaScript
    yields [NaN] or an infinity where [Q] yields [0]; the value is read
    only inside the loop below, which then runs no iteration. *)
Definition pageInterval (numTriples : Z) : Q :=
  (inject_Z (maxPage numTriples) / inject_Z (pagesToSample numTriples))%Q.

(** [1 + i*pageInterval], the number appended after ["?page="]. *)
Definition pageIndex (numTriples : Z) (i : nat) : Q :=
  (1 + inject_Z (Z.of_nat i) * pageInterval numTriples)%Q.

(** [for (var i = 0; i < pagesToSample; i++)]: the indices requested, in
    the order of the requests. *)
Definition pageIndices (numTriples : Z) : list Q :=
  map (pageIndex numTriples) (seq 0 (Z.to_nat (pagesToSample numTriples))).

End Sampler.
End PageSampler.

(** ** Triples, errors and callbacks *)

(** A triple as the [n3] parser delivers it: four strings. *)
Record Triple := {
  subject : string;
  predicate : string;
  object : string;
  graph : string
}.

Inductive JSError :=
| Error (message : string)
| ReferenceError (identifier : string).

(** The arguments [(err, triple)] of one call of a [streamTriples]
    callback; [None] is [null] or [undefined]. *)
Record CbArgs := { err : option JSError; triple : option Triple }.

(** ** [streamTriples] *)

Module Stream.

(** What [request] hands to its callback: [err], or a response. *)
Inductive HttpResult :=
| RequestFailed (e : JSError)
| HttpResponse (statusCode : Z) (body : string).

(** One run of the request callback: the calls it made of [callback],
    in order, unless it was left by an exception nobody catches. *)
Inductive Outcome :=
| Called (calls : list CbArgs)
| Uncaught (e : JSError).

Inductive JSValue :=
| VString (s : string)
| VOther.

(** The bindings visible in the request callback of [streamTriples]: its
    parameters, those of [streamTriples] with its local, and the
    declarations of the module.  [ldfURL] is a parameter of
    [analyseData] and is not among them, and Node defines no global of
    that name. *)
Definition scope (url body : string) : list (string * JSValue) :=
  [ ("err", VOther); ("response", VOther); ("body", VString body);
    ("url", VString url); ("callback", VOther); ("requestOptions", VOther);
    ("N3", VOther); ("request", VOther); ("urlparse", VOther);
    ("SAMPLING_FACTOR", VOther); ("getRelevantDatasets", VOther);
    ("streamTriples", VOther); ("analyseData", VOther); ("process", VOther) ].

Definition toString (v : JSValue) : string :=
  match v with
  | VString s => s
  | VOther => "[object Object]"
  end.

(** Reading an identifier: a name without binding raises. *)
Definition readIdentifier (env : list (string * JSValue)) (x : string)
  : JSError + JSValue :=
  match obj_get env x with
  | Some v => inr v
  | None => inl (ReferenceError x)
  end.

Section Client.

(** [N3.Parser({format: ...}).parse(body, f)]: the calls of [f]. *)
Variable parse : string -> list CbArgs.
(** Decimal printing of a status code. *)
Variable showNumber : Z -> string.

(** [function (err, triple, prefix)] given to the parser. *)
Definition onParsed (a : CbArgs) : CbArgs :=
  match err a with
  | Some e => {| err := Some e; triple := None |}
  | None => {| err := None; triple := triple a |}
  end.

(** ["Encountered statuscode " + response.statusCode + " for " + ldfURL] *)
Definition statusMessage (env : list (string * JSValue)) (statusCode : Z)
  : JSError + string :=
  match readIdentifier env "ldfURL" with
  | inl e => inl e
  | inr v =>
      inr ("Encountered statuscode " ++ showNumber statusCode ++ " for "
             ++ toString v)
  end.

Definition streamTriples (url : string) (r : HttpResult) : Outcome :=
  match r with
  | RequestFailed e => Called [ {| err := Some e; triple := None |} ]
  | HttpResponse statusCode body =>
      if decide (statusCode ≠ 200) then
        match statusMessage (scope url body) statusCode with
        | inl e => Uncaught e
        | inr m => Called [ {| err := Some (Error m); triple := None |} ]
        end
      else Called (map onParsed (parse body))
  end.

End Client.
End Stream.

(** ** [analyseData] *)

Module Analyse.

(** The promise returned by [analyseData].  It is fulfilled with the
    [urls] object of one run of the sampling code: the object itself,
    named here by the number of that run. *)
Inductive PromiseState :=
| Pending
| Fulfilled (run : nat)
| Rejected (e : JSError).

(** [resolve] and [reject] settle a pending promise and do nothing to a
    settled one. *)
Definition resolve (run : nat) (p : PromiseState) : PromiseState :=
  match p with
  | Pending => Fulfilled run
  | _ => p
  end.

Definition reject (e : JSError) (p : PromiseState) : PromiseState :=
  match p with
  | Pending => Rejected e
  | _ => p
  end.

(** The variables [remainingPages] and [urls] that one run of the
    sampling code declares and its page callbacks share.
    [remainingPages] is [None] for [NaN]. *)
Record Sampling := { remainingPages : option Z; urls : Obj Prim }.

(** One call of [analyseData]: its promise, the runs of the sampling code
    so far, and the pages requested (run and page index). *)
Record State := {
  promise : PromiseState;
  samplings : list Sampling;
  requested : list (nat * Q)
}.

Definition initial : State :=
  {| promise := Pending; samplings := []; requested := [] |}.

Definition voidTriples : string := "http://rdfs.org/ns/void#triples".

(** What happens to one call of [analyseData]: a call of the callback of
    the root stream, or of the callback of the stream of one requested
    page, named by its position among the requests. *)
Inductive Event :=
| FromRoot (a : CbArgs)
| FromPage (request : nat) (a : CbArgs).

Section Analysis.

Variable SAMPLING_FACTOR : Q.
(** [N3.Util.isIRI] *)
Variable isIRI : string -> bool.
(** [urlparse(elem).host] *)
Variable host : string -> string.
(** [parseInt(N3.Util.getLiteralValue(o))]; [None] is [NaN]. *)
Variable literalInt : string -> option Z.

(** The body of the [forEach] over subject, predicate and object:
    [urls[host] = (urls[host] || 0) + 1]. *)
Definition countTerm (urls : Obj Prim) (elem : string) : Obj Prim :=
  if isIRI elem then
    assign urls (host elem) (plus (orZero urls (host elem)) (Number 1))
  else urls.

Definition countTriple (urls : Obj Prim) (t : Triple) : Obj Prim :=
  fold_left countTerm [subject t; predicate t; object t] urls.

(** The callback of a page stream, on the promise and on the variables of
    its run (number [run]). *)
Definition pageCallback (run : nat) (a : CbArgs)
    (ps : PromiseState * Sampling) : PromiseState * Sampling :=
  let (p, s) := ps in
  match err a with
  | Some e => (reject e p, s)
  | None =>
      match triple a with
      | Some t =>
          if decide (graph t ≠ "") then (p, s)
          else (p, {| remainingPages := remainingPages s;
                      urls := countTriple (urls s) t |})
      | None =>
          let remaining := (fun n => n - 1) <$> remainingPages s in
          let s' := {| remainingPages := remaining; urls := urls s |} in
          if decide (remaining = Some 0) then (resolve run p, s') else (p, s')
      end
  end.

(** The sampling code run for a metadata triple with object [o]. *)
Definition startSampling (o : string) (st : State) : State :=
  let run := length (samplings st) in
  match literalInt o with
  | None =>
      {| promise := promise st;
         samplings := samplings st ++ [ {| remainingPages := None; urls := [] |} ];
         requested := requested st |}
  | Some numTriples =>
      {| promise := promise st;
         samplings := samplings st ++
           [ {| remainingPages :=
                  Some (PageSampler.pagesToSample SAMPLING_FACTOR numTriples);
                urls := [] |} ];
         requested := requested st ++
           map (pair run) (PageSampler.pageIndices SAMPLING_FACTOR numTriples) |}
  end.

(** The callback of the stream of the root resource [ldfURL]. *)
Definition rootCallback (ldfURL : string) (a : CbArgs) (st : State) : State :=
  match err a with
  | Some e =>
      {| promise := reject e (promise st);
         samplings := samplings st; requested := requested st |}
  | None =>
      match triple a with
      | Some t =>
          if decide (subject t = ldfURL ∧ predicate t = voidTriples)
          then startSampling (object t) st
          else st
      | None => st
      end
  end.

(** A page callback exists only for a page that was requested; it works
    on the variables of the run that requested it. *)
Definition step (ldfURL : string) (st : State) (ev : Event) : State :=
  match ev with
  | FromRoot a => rootCallback ldfURL a st
  | FromPage request a =>
      match requested st !! request with
      | Some (run, _) =>
          match samplings st !! run with
          | Some s =>
              let (p, s') := pageCallback run a (promise st, s) in
              {| promise := p;
                 samplings := <[run := s']> (samplings st);
                 requested := requested st |}
          | None => st
          end
      | None => st
      end
  end.

Definition run (ldfURL : string) (evs : list Event) (st : State) : State :=
  fold_left (step ldfURL) evs st.

(** The value a fulfilled promise holds: the [urls] object of its run as
    it is when looked at. *)
Definition fulfilledWith (st : State) : option (Obj Prim) :=
  match promise st with
  | Fulfilled r => urls <$> samplings st !! r
  | _ => None
  end.

(** The events a stream contributes: the calls of its callback; after an
    uncaught exception in the request callback there are none. *)
Definition deliver (wrap : CbArgs -> Event) (o : Stream.Outcome) : list Event :=
  match o with
  | Stream.Called calls => map wrap calls
  | Stream.Uncaught _ => []
  end.

(** The triples that a sequence of callback calls delivers. *)
Definition delivered (calls : list CbArgs) : list Triple :=
  omap (fun a => match err a with Some _ => None | None => triple a end) calls.

(** All the calls of the page callbacks of one run, in the order of their
    arrival, on the promise and the variables of the run. *)
Definition aggregate (run : nat) (calls : list CbArgs)
    (ps : PromiseState * Sampling) : PromiseState * Sampling :=
  fold_left (fun ps a => pageCallback run a ps) calls ps.

End Analysis.

(** The positions of a triple that are looked at for a host. *)
Inductive Position := InSubject | InPredicate | InObject.

Definition termAt (t : Triple) (p : Position) : string :=
  match p with
  | InSubject => subject t
  | InPredicate => predicate t
  | InObject => object t
  end.

(** The pairs of a triple of the default graph and a position of it that
    holds an IRI. *)
Definition countedPairs (isIRI : string -> bool) (ts : list Triple)
    : list (Triple * Position) :=
  filter (fun tp => graph (fst tp) = "" ∧ isIRI (termAt (fst tp) (snd tp)) = true)
         (list_prod ts [InSubject; InPredicate; InObject]).

(** The counted pairs whose host is no property name of
    [Object.prototype]. *)
Definition ownPairs (isIRI : string -> bool) (host : string -> string)
    (ts : list Triple) : list (Triple * Position) :=
  filter (fun tp => inheritedText (host (termAt (fst tp) (snd tp))) = None)
         (countedPairs isIRI ts).

(** A root callback call that neither reports an error nor delivers the
    metadata triple of [ldfURL]. *)
Definition silent (ldfURL : string) (ev : Event) : Prop :=
  match ev with
  | FromRoot a =>
      err a = None ∧
      ∀ t, triple a = Some t → ¬ (subject t = ldfURL ∧ predicate t = voidTriples)
  | FromPage _ _ => True
  end.

(** A root callback call that reports no error and, when it delivers the
    metadata triple of [ldfURL], declares a size that is not positive. *)
Definition withoutPositiveSize (literalInt : string -> option Z)
    (ldfURL : string) (ev : Event) : Prop :=
  match ev with
  | FromRoot a =>
      err a = None ∧
      ∀ t, triple a = Some t → subject t = ldfURL → predicate t = voidTriples →
           ∃ n, literalInt (object t) = Some n ∧ n <= 0
  | FromPage _ _ => True
  end.

End Analyse.

(** ** The heap of host maps *)

(** A location names one host-map object ([urls], later
    [hostOccurrences] and [referencedHosts]); the heap gives the current
    content of every such object. *)
Abbreviation loc := nat (only parsing).
Abbreviation Heap := (nat -> Obj Prim) (only parsing).

(** ** [process] *)

Module Dataset.
(** A dataset after its analysis:
    [{ldfEndpoint, source, triples, hostOccurrences}]. *)
Record t := {
  ldfEndpoint : string;
  source : string;
  triples : Z;
  hostOccurrences : loc
}.
End Dataset.

Record Provenance := { ldf : string; url : string; numTriples : Z }.

Module Processed.
(** The object returned by [process]. *)
Record t := {
  mostOccurringHost : option string;
  provenance : Provenance;
  referencedHosts : loc
}.
End Processed.

(** The body of the [for (var key in ...)] loop, on the pair of
    [mostOccurringHost] and [occurrences].  A string in a host map is the
    text of an inherited value with more text after it, which [>] converts
    to [NaN]; a comparison with [NaN] or with [undefined] is false. *)
Definition scanKey (hostOccurrences : Obj Prim) (st : option string * Z)
    (key : string) : option string * Z :=
  match obj_get hostOccurrences key with
  | Some (Number n) => if decide (n > snd st) then (Some key, n) else st
  | Some (Text _) => st
  | None => st
  end.

(** The loop, started with [null] and [0]. *)
Definition selectDominant (hostOccurrences : Obj Prim) : option string * Z :=
  fold_left (scanKey hostOccurrences) (obj_keys hostOccurrences) (None, 0).

(** [process(datasetInfo)]: the selected key is deleted from the object
    itself, and that same object is returned as [referencedHosts].  The
    loop visits the own properties of the map: [for in] lists no property
    of [Object.prototype], none of them being enumerable, and the guard
    [hasOwnProperty] is taken as the inherited method. *)
Definition process (h : Heap) (datasetInfo : Dataset.t) : Heap * Processed.t :=
  let l := Dataset.hostOccurrences datasetInfo in
  let mostOccurringHost := fst (selectDominant (h l)) in
  (<[l := obj_delete (h l) (toPropertyKey mostOccurringHost)]> h,
   {| Processed.mostOccurringHost := mostOccurringHost;
      Processed.provenance :=
        {| ldf := Dataset.ldfEndpoint datasetInfo;
           url := Dataset.source datasetInfo;
           numTriples := Dataset.triples datasetInfo |};
      Processed.referencedHosts := l |}).

(** ** The merging [reduce] *)

Module Entry.
(** A value of the accumulator: [{triples, provenance, referencedHosts}]. *)
Record t := {
  triples : Z;
  provenance : list Provenance;
  referencedHosts : loc
}.
End Entry.

(** The inner [reduce] callback: [sum[key] = (sum[key] || 0) +
    current.referencedHosts[key]], where [sum] is the object at [target]
    and [current.referencedHosts] the object at [from].  A key listed by
    [Object.keys] is a property of the object, which loses none during the
    loop, so the read is never [undefined]; that branch leaves the heap as
    it is. *)
Definition addCount (from target : loc) (h : Heap) (key : string) : Heap :=
  match obj_get (h from) key with
  | Some v => <[target := assign (h target) key (plus (orZero (h target) key) v)]> h
  | None => h
  end.

(** [Object.keys(current.referencedHosts).reduce(..., entry.referencedHosts)] *)
Definition addCounts (from target : loc) (h : Heap) : Heap :=
  fold_left (addCount from target) (obj_keys (h from)) h.

(** The callback of the outer [reduce], on the heap and the accumulator.
    The accumulator is read by its own properties: the key is [null] or a
    host that [process] selected, whose value in the host map is a number,
    and the counting stores no number under a name that
    [Object.prototype] has. *)
Definition merge (st : Heap * Obj Entry.t) (current : Processed.t)
    : Heap * Obj Entry.t :=
  let (h, acc) := st in
  let key := toPropertyKey (Processed.mostOccurringHost current) in
  match obj_get acc key with
  | None =>
      (h, obj_set acc key
            {| Entry.triples := numTriples (Processed.provenance current);
               Entry.provenance := [Processed.provenance current];
               Entry.referencedHosts := Processed.referencedHosts current |})
  | Some entry =>
      (addCounts (Processed.referencedHosts current) (Entry.referencedHosts entry) h,
       obj_set acc key
            {| Entry.triples :=
                 Entry.triples entry + numTriples (Processed.provenance current);
               Entry.provenance :=
                 Entry.provenance entry ++ [Processed.provenance current];
               Entry.referencedHosts := Entry.referencedHosts entry |})
  end.

(** [processedInfo.reduce(..., {})] *)
Definition reduce (h : Heap) (processedInfo : list Processed.t)
    : Heap * Obj Entry.t :=
  fold_left merge processedInfo (h, []).

(** [datasetInfo.map(process)], threading the heap. *)
Definition processAll (h : Heap) (datasetInfo : list Dataset.t)
    : Heap * list Processed.t :=
  fold_left (fun (st : (nat -> Obj Prim) * list Processed.t) d =>
               let (h', p) := process (fst st) d in (h', (snd st ++ [p])%list))
            datasetInfo (h, []).

(** ** Groups of datasets and merged counts *)

(** The property name under which the merge files a processed dataset. *)
Definition keyOf (d : Processed.t) : string :=
  toPropertyKey (Processed.mostOccurringHost d).

(** The datasets filed under [k], in the order of the input. *)
Definition group (k : string) (l : list Processed.t) : list Processed.t :=
  filter (fun d => keyOf d = k) l.

Definition declared (d : Processed.t) : Z := numTriples (Processed.provenance d).

Definition sumZ (l : list Z) : Z := foldr Z.add 0 l.

(** What one more dataset does to the property [x] of the map it is
    added to: [acc] is that property before, [v] the property [x] of the
    map of the dataset, [None] for a property that is not there. *)
Definition addValue (x : string) (acc v : option Prim) : option Prim :=
  match v with
  | Some w =>
      if decide (x = "__proto__" ∧ acc = None) then None
      else Some (plus (operand x acc) w)
  | None => acc
  end.

(** The property [x] of the map of the first dataset after the maps of
    the others were added to it one by one. *)
Definition merged (x : string) (vs : list (option Prim)) : option Prim :=
  match vs with
  | [] => None
  | v :: rest => fold_left (addValue x) rest v
  end.

(** The values of host [x] in the host maps of the datasets [ds], as the
    heap [h] has them. *)
Definition counts (h : Heap) (x : string) (ds : list Processed.t)
    : list (option Prim) :=
  (fun d => obj_get (h (Processed.referencedHosts d)) x) <$> ds.

(** A map of numbers under names that [Object.prototype] does not have. *)
Definition plain (o : Obj Prim) : Prop :=
  ∀ k v, obj_get o k = Some v → inheritedText k = None ∧ ∃ n, v = Number n.

(** A map that holds a number under every name that [Object.prototype]
    does not have and a string that is not empty under every name that it
    has, as the counting leaves it. *)
Definition written (o : Obj Prim) : Prop :=
  ∀ k v, obj_get o k = Some v →
    match inheritedText k with
    | None => ∃ n, v = Number n
    | Some _ => ∃ s, v = Text s ∧ s ≠ ""
    end.

(** ** Sample inputs *)

Module Sample.

(** Stand-ins for the library calls on the terms of the examples: an IRI
    starts with [http://], and its host ends at the next slash. *)
Definition isIRI (term : string) : bool := String.prefix "http://" term.

Fixpoint upToSlash (s : string) : string :=
  match s with
  | EmptyString => EmptyString
  | String c rest => if Ascii.eqb c "/"%char then EmptyString else String c (upToSlash rest)
  end.

Definition host (iri : string) : string :=
  upToSlash (String.substring 7 (String.length iri - 7) iri).

Definition endpoint : string := "http://ldf.example.org/d1".

Definition data (s p o : string) : CbArgs :=
  {| err := None;
     triple := Some {| subject := s; predicate := p; object := o; graph := "" |} |}.

Definition control (s p o : string) : CbArgs :=
  {| err := None;
     triple := Some {| subject := s; predicate := p; object := o;
                       graph := "http://ldf.example.org/d1#metadata" |} |}.

Definition ended : CbArgs := {| err := None; triple := None |}.

(** The triple of the root resource that declares the size. *)
Definition size : CbArgs := control endpoint Analyse.voidTriples "size".

(** Three host maps on the heap, and the processed datasets that own
    them: two with dominant host [foo.org], one with [bar.org]. *)
Definition heap : Heap :=
  fun l =>
    match l with
    | 0%nat => [("b.org", Number 1)]
    | 1%nat => [("b.org", Number 2); ("c.org", Number 5)]
    | 2%nat => [("c.org", Number 7)]
    | _ => []
    end.

Definition first : Processed.t :=
  {| Processed.mostOccurringHost := Some "foo.org";
     Processed.provenance :=
       {| ldf := "http://ldf.example.org/d1"; url := "http://foo.org/d1.nt";
          numTriples := 100 |};
     Processed.referencedHosts := 0%nat |}.

Definition second : Processed.t :=
  {| Processed.mostOccurringHost := Some "foo.org";
     Processed.provenance :=
       {| ldf := "http://ldf.example.org/d2"; url := "http://foo.org/d2.nt";
          numTriples := 200 |};
     Processed.referencedHosts := 1%nat |}.

Definition third : Processed.t :=
  {| Processed.mostOccurringHost := Some "bar.org";
     Processed.provenance :=
       {| ldf := "http://ldf.example.org/d3"; url := "http://bar.org/d3.nt";
          numTriples := 50 |};
     Processed.referencedHosts := 2%nat |}.

(** A dataset whose host map is at location [l]. *)
Definition dataset (l : loc) : Dataset.t :=
  {| Dataset.ldfEndpoint := endpoint; Dataset.source := "http://foo.org/d1.nt";
     Dataset.triples := 100; Dataset.hostOccurrences := l |}.

End Sample.

(** ** Notions used to state further properties *)

(** A rational that is a whole number. *)
Definition isInteger (x : Q) : Prop := exists z : Z, (x == inject_Z z)%Q.

(** The number of calls that signal the end of a stream: no error and no
    triple. *)
Definition ends (calls : list CbArgs) : nat :=
  length (filter (fun a => err a = None ∧ triple a = None) calls).

(** The counted pairs whose term has host [x]. *)
Definition hostPairs (isIRI : string -> bool) (host : string -> string)
    (x : string) (ts : list Triple) : list (Triple * Analyse.Position) :=
  filter (fun tp => host (Analyse.termAt (fst tp) (snd tp)) = x)
         (Analyse.countedPairs isIRI ts).

(** The arguments of the page callback calls of a trace. *)
Definition pageArgs (evs : list Analyse.Event) : list CbArgs :=
  omap (fun ev => match ev with
                  | Analyse.FromPage _ a => Some a
                  | Analyse.FromRoot _ => None
                  end) evs.

(** What follows the metadata triple in a run without error: a page
    callback call without error for one of the first [bound] requests, or
    a root callback call that reports no error and does not deliver the
    metadata triple of [ldfURL] again (another triple of the root page, or
    the end of its stream). *)
Definition withoutError (ldfURL : string) (bound : nat) (ev : Analyse.Event)
    : Prop :=
  match ev with
  | Analyse.FromPage request a => (request < bound)%nat ∧ err a = None
  | Analyse.FromRoot a =>
      err a = None ∧
      ∀ t, triple a = Some t →
           ¬ (subject t = ldfURL ∧ predicate t = Analyse.voidTriples)
  end.

(** A root callback call that reports no error and, when it delivers the
    metadata triple of [ldfURL], carries a literal that [parseInt] turns
    into [NaN]. *)
Definition withoutNumber (literalInt : string -> option Z)
    (ldfURL : string) (ev : Analyse.Event) : Prop :=
  match ev with
  | Analyse.FromRoot a =>
      err a = None ∧
      ∀ t, triple a = Some t → subject t = ldfURL →
           predicate t = Analyse.voidTriples → literalInt (object t) = None
  | Analyse.FromPage _ _ => True
  end.

(** What one more occurrence of host [x] does to the property [x] of the
    host map, [v] before. *)
Definition bumpOnce (x : string) (v : option Prim) : option Prim :=
  if decide (x = "__proto__" ∧ v = None) then None
  else Some (plus (operand x v) (Number 1)).

(** [k] more occurrences. *)
Definition bump (x : string) (v : option Prim) (k : nat) : option Prim :=
  Nat.iter k (bumpOnce x) v.

(** The digit [1] written [k] times. *)
Fixpoint ones (k : nat) : string :=
  match k with
  | O => ""
  | S k' => "1" ++ ones k'
  end.

(** A term that is counted under a name that [Object.prototype] does not
    have. *)
Definition countedOwn (isIRI : string -> bool) (host : string -> string)
    (elem : string) : Prop :=
  isIRI elem = true ∧ inheritedText (host elem) = None.

(** A term that is counted for host [x]. *)
Definition countedFor (isIRI : string -> bool) (host : string -> string)
    (x : string) (elem : string) : Prop :=
  isIRI elem = true ∧ host elem = x.

(** ** [getRelevantDatasets] *)

Module Discovery.

(** One element of [body.results.bindings]: the [value]s of [md5], [doc]
    and [triples]. *)
Record Binding := { md5 : string; doc : string; triples : string }.

(** A dataset as the discovery hands it on; [T] is the type of its
    [triples]: the number that [parseInt] gives in the variant with
    [process], the string itself in [index.js]. *)
Record Candidate (T : Type) := {
  ldfEndpoint : string;
  source : string;
  declaredTriples : T
}.
Arguments ldfEndpoint {T}.
Arguments source {T}.
Arguments declaredTriples {T}.

(** What becomes of the promise: resolved, rejected, or left pending by
    an exception raised in the callback of [request.post]. *)
Inductive Settled (T : Type) :=
| Resolved (datasets : list (Candidate T))
| RejectedWith (e : JSError)
| LeftPending (e : JSError).
Arguments Resolved {T}.
Arguments RejectedWith {T}.
Arguments LeftPending {T}.

Section Query.

Variable T : Type.
(** [parseInt] in the variant with [process], the identity in [index.js]. *)
Variable convert : string -> T.
(** [JSON.parse(body).results.bindings], which may raise. *)
Variable bindings : string -> JSError + list Binding.
Variable showNumber : Z -> string.

(** The function mapped over the bindings. *)
Definition toDataset (elem : Binding) : Candidate T :=
  {| ldfEndpoint := "http://ldf.lodlaundromat.org/" ++ md5 elem;
     source := doc elem;
     declaredTriples := convert (triples elem) |}.

(** The callback of [request.post], on what [request] hands to it. *)
Definition getRelevantDatasets (r : Stream.HttpResult) : Settled T :=
  match r with
  | Stream.RequestFailed e => RejectedWith e
  | Stream.HttpResponse statusCode body =>
      if decide (statusCode ≠ 200) then
        RejectedWith (Error ("Statuscode " ++ showNumber statusCode
                               ++ " while retrieving datasets."))
      else
        match bindings body with
        | inl e => LeftPending e
        | inr elems => Resolved (map toDataset elems)
        end
  end.

End Query.
End Discovery.

(** ** The two steps after the analyses *)

(** [datasetInfo.map(process)] followed by the merging [reduce]. *)
Definition summarise (h : Heap) (datasetInfo : list Dataset.t)
    : Heap * Obj Entry.t :=
  let (h1, processedInfo) := processAll h datasetInfo in
  reduce h1 processedInfo.

(** ** More sample inputs *)

Module Sample2.

(** Two host maps in which [foo.org] is the most frequent host. *)
Definition heap : Heap :=
  fun l =>
    match l with
    | 0%nat => [("foo.org", Number 9); ("b.org", Number 1)]
    | 1%nat => [("b.org", Number 2); ("foo.org", Number 8); ("c.org", Number 5)]
    | _ => []
    end.

Definition failure : CbArgs :=
  {| err := Some (Error "socket hang up"); triple := None |}.

(** A call of [analyseData] that was rejected while a page is still
    outstanding. *)
Definition rejected : Analyse.State :=
  {| Analyse.promise := Analyse.Rejected (Error "socket hang up");
     Analyse.samplings := [ {| Analyse.remainingPages := Some 1; Analyse.urls := [] |} ];
     Analyse.requested := [(0%nat, 1%Q)] |}.

Definition nameless : Processed.t :=
  {| Processed.mostOccurringHost := None;
     Processed.provenance :=
       {| ldf := "http://ldf.example.org/d4"; url := "http://example.org/d4.nt";
          numTriples := 10 |};
     Processed.referencedHosts := 3%nat |}.

Definition named : Processed.t :=
  {| Processed.mostOccurringHost := Some "null";
     Processed.provenance :=
       {| ldf := "http://ldf.example.org/d5"; url := "http://null/d5.nt";
          numTriples := 20 |};
     Processed.referencedHosts := 4%nat |}.

Definition elems : list Discovery.Binding :=
  [ {| Discovery.md5 := "0a1b"; Discovery.doc := "http://foo.org/d1.nt";
       Discovery.triples := "100" |};
    {| Discovery.md5 := "2c3d"; Discovery.doc := "http://foo.org/d2.nt";
       Discovery.triples := "200" |} ].

End Sample2.

Module Sample3.

(** The page of a dataset of [foo.org] that refers to [b.org], and the
    page of another that refers to a host named [constructor]. *)
Definition pageOne : list CbArgs :=
  [ Sample.data "http://foo.org/a" "http://foo.org/p" "http://b.org/x";
    Sample.ended ].

Definition pageTwo : list CbArgs :=
  [ Sample.data "http://foo.org/c" "http://foo.org/p" "http://constructor/y";
    Sample.ended ].

(** The host map that the page callbacks of a run with one page build. *)
Definition analysed (calls : list CbArgs) : Obj Prim :=
  Analyse.urls
    (snd (Analyse.aggregate Sample.isIRI Sample.host 0 calls
            (Analyse.Pending,
             {| Analyse.remainingPages := Some 1; Analyse.urls := [] |}))).

Definition heap : Heap :=
  fun l =>
    match l with
    | 0%nat => analysed pageOne
    | 1%nat => analysed pageTwo
    | _ => []
    end.

Definition first : Dataset.t :=
  {| Dataset.ldfEndpoint := "http://ldf.example.org/d1";
     Dataset.source := "http://foo.org/d1.nt";
     Dataset.triples := 100; Dataset.hostOccurrences := 0%nat |}.

Definition second : Dataset.t :=
  {| Dataset.ldfEndpoint := "http://ldf.example.org/d2";
     Dataset.source := "http://foo.org/d2.nt";
     Dataset.triples := 200; Dataset.hostOccurrences := 1%nat |}.

End Sample3.

(** * Properties *)

(** ** Objects *)

Section Objects.
Context {V : Type}.
Implicit Types (o : Obj V) (k key : string).

Lemma obj_get_Some_keys o key v : obj_get o key = Some v -> key ∈ obj_keys o.
Proof.
  induction o as [|[k w] o IH]; simpl; [done |].
  case_decide; [subst; intros _; left | intros Hg; right; auto].
Qed.

Lemma obj_get_None_keys o key : obj_get o key = None <-> key ∉ obj_keys o.
Proof.
  induction o as [|[k w] o IH]; simpl.
  - split; [intros _; apply not_elem_of_nil | done].
  - rewrite not_elem_of_cons. case_decide; [subst |]; intuition congruence.
Qed.

Lemma obj_get_set o key k v :
  obj_get (obj_set o key v) k = if decide (key = k) then Some v else obj_get o k.
Proof.
  induction o as [|[k' w] o IH]; simpl.
  - repeat case_decide; congruence.
  - repeat (case_decide; simpl); congruence.
Qed.

Lemma obj_get_delete o key k :
  obj_get (obj_delete o key) k = if decide (key = k) then None else obj_get o k.
Proof.
  unfold obj_delete. induction o as [|[k' w] o IH].
  - simpl. by case_decide.
  - rewrite filter_cons. simpl. repeat (case_decide; simpl); congruence.
Qed.


Lemma obj_delete_absent o key : key ∉ obj_keys o -> obj_delete o key = o.
Proof.
  unfold obj_delete. induction o as [|[k' w] o IH]; [done |].
  simpl. rewrite not_elem_of_cons. intros [Hne Hnot]. rewrite filter_cons. simpl.
  rewrite decide_True by done. f_equal. by apply IH.
Qed.

End Objects.

(** ** Page sampling *)

Lemma Qceiling_pos (x : Q) : (0 < x)%Q -> 1 <= Qceiling x.
Proof.
  intros Hx.
  assert (H : (inject_Z 0 < inject_Z (Qceiling x))%Q).
  { eapply Qlt_le_trans; [exact Hx | apply Qle_ceiling]. }
  rewrite <- Zlt_Qlt in H. lia.
Qed.

Section SamplerBounds.
Import PageSampler.

Variable r : Q.
Hypothesis r_pos : (0 < r)%Q.
Hypothesis r_le : (r <= 1)%Q.

Lemma inject_Z_pos n : 0 < n -> (0 < inject_Z n)%Q.
Proof. intros Hn. change 0%Q with (inject_Z 0). by rewrite <- Zlt_Qlt. Qed.

Lemma pagesToSample_pos n : 0 < n -> 1 <= pagesToSample r n.
Proof.
  intros Hn. apply Qceiling_pos. pose proof (inject_Z_pos n Hn).
  apply Qlt_shift_div_l; [reflexivity | nra].
Qed.

Lemma pagesToSample_le_maxPage n : 0 < n -> pagesToSample r n <= maxPage n.
Proof.
  intros Hn. apply Qceiling_resp_le. pose proof (inject_Z_pos n Hn).
  unfold Qdiv. apply Qmult_le_compat_r; [nra | discriminate].
Qed.

Lemma pageIndex_bounds n i :
  0 < n -> Z.of_nat i < pagesToSample r n ->
  (1 <= pageIndex r n i)%Q /\ (pageIndex r n i <= inject_Z (maxPage n))%Q.
Proof.
  intros Hn Hi.
  pose proof (pagesToSample_pos n Hn) as Hp.
  pose proof (pagesToSample_le_maxPage n Hn) as Hm.
  unfold pageIndex, pageInterval.
  set (p := pagesToSample r n) in *. set (m := maxPage n) in *.
  assert (Hp' : (1 <= inject_Z p)%Q) by (rewrite <- (Zle_Qle 1); lia).
  assert (Hm' : (inject_Z p <= inject_Z m)%Q) by (rewrite <- Zle_Qle; lia).
  assert (Hi0 : (0 <= inject_Z (Z.of_nat i))%Q) by (rewrite <- (Zle_Qle 0); lia).
  assert (Hi1 : (inject_Z (Z.of_nat i) + 1 <= inject_Z p)%Q).
  { rewrite <- (inject_Z_plus _ 1), <- Zle_Qle. lia. }
  set (q := (inject_Z m / inject_Z p)%Q).
  assert (Hq : (q * inject_Z p == inject_Z m)%Q).
  { unfold q. field. intros E. rewrite E in Hp'. lra. }
  assert (Hq1 : (1 <= q)%Q) by (unfold q; apply Qle_shift_div_l; lra).
  split; [nra |]. rewrite <- Hq. nra.
Qed.

End SamplerBounds.

(** C1: for a positive declared number of triples, pages of 100 triples
    and a sampling ratio in (0,1], the sampling loop requests at least one
    and at most [maxPage] page indices, and every requested index lies
    between 1 and [maxPage]. *)
Theorem pageIndices_within_range (samplingRatio : Q) (declaredTriples : Z) :
  0 < declaredTriples -> (0 < samplingRatio)%Q -> (samplingRatio <= 1)%Q ->
  let indices := PageSampler.pageIndices samplingRatio declaredTriples in
  let maxPage := PageSampler.maxPage declaredTriples in
  1 <= Z.of_nat (length indices) <= maxPage /\
  Forall (fun index => (1 <= index)%Q /\ (index <= inject_Z maxPage)%Q) indices.
Proof.
  intros Hn Hr0 Hr1. cbv zeta. unfold PageSampler.pageIndices.
  pose proof (pagesToSample_pos _ Hr0 _ Hn) as Hp.
  pose proof (pagesToSample_le_maxPage _ Hr1 _ Hn) as Hm.
  split.
  - rewrite length_map, length_seq. lia.
  - apply Forall_forall. intros x Hx.
    apply in_map_iff in Hx as (i & <- & Hi). apply in_seq in Hi.
    apply pageIndex_bounds; [done.. | lia].
Qed.

Lemma pageIndices_within_range_witness :
  1 <= Z.of_nat (length (PageSampler.pageIndices (1 # 10) 1000))
    <= PageSampler.maxPage 1000 /\
  Forall (fun index => (1 <= index)%Q /\
                       (index <= inject_Z (PageSampler.maxPage 1000))%Q)
         (PageSampler.pageIndices (1 # 10) 1000).
Proof.
  apply (pageIndices_within_range (1 # 10) 1000); [lia | reflexivity | discriminate].
Defined.

(** The first scenario of the design: 1000 triples at ratio 0.1 give ten
    pages, of which one is sampled, the first. *)
Example sampler_scenario :
  PageSampler.maxPage 1000 = 10 /\
  PageSampler.pagesToSample (1 # 10) 1000 = 1 /\
  PageSampler.pageIndices (1 # 10) 1000 = [1%Q].
Proof. vm_compute. done. Qed.

(** ** Host counting *)

Lemma inheritedText_nonempty key t : inheritedText key = Some t -> t ≠ "".
Proof.
  unfold inheritedText, objectPrototype. cbn [obj_get].
  repeat case_decide; intros [= <-]; discriminate.
Qed.

Lemma total_cons k v (o : Obj Prim) : total ((k, v) :: o) = countOf v + total o.
Proof. reflexivity. Qed.

Lemma total_set (o : Obj Prim) key v :
  total (obj_set o key v)
  = total o - from_option countOf 0 (obj_get o key) + countOf v.
Proof.
  induction o as [|[k w] o IH]; cbn [obj_set obj_get].
  - rewrite total_cons. unfold total. simpl. lia.
  - case_decide; rewrite !total_cons; [simpl | rewrite IH]; lia.
Qed.

Lemma written_nil : written [].
Proof. intros k v. discriminate. Qed.

Lemma written_set o key v :
  written o ->
  match inheritedText key with
  | None => ∃ n, v = Number n
  | Some _ => ∃ s, v = Text s ∧ s ≠ ""
  end ->
  written (obj_set o key v).
Proof.
  intros Ho Hv k w. rewrite obj_get_set. case_decide as Hk.
  - subst k. by intros [= <-].
  - apply Ho.
Qed.

(** The operand and the sum of one counting step, on a map as the
    counting leaves it. *)
Lemma plus_orZero_written o key :
  written o ->
  match inheritedText key with
  | None => plus (orZero o key) (Number 1)
            = Number (from_option countOf 0 (obj_get o key) + 1)
  | Some _ => ∃ s, plus (orZero o key) (Number 1) = Text s ∧ s ≠ ""
  end.
Proof.
  intros Ho. unfold orZero, operand. specialize (Ho key).
  destruct (obj_get o key) as [v|] eqn:Hget.
  - specialize (Ho v eq_refl).
    destruct (inheritedText key) as [t|].
    + destruct Ho as (s & -> & Hs). rewrite decide_False by done.
      exists (s ++ decimal 1). split; [done |]. by destruct s.
    + by destruct Ho as (n & ->).
  - destruct (inheritedText key) as [t|] eqn:Ht; [| done].
    exists (t ++ decimal 1). split; [done |].
    apply inheritedText_nonempty in Ht. by destruct t.
Qed.

Section Counting.
Import Analyse.

Variable isIRI : string -> bool.
Variable host : string -> string.

Local Abbreviation own := (countedOwn isIRI host).

Lemma written_countTerm urls elem :
  written urls -> written (countTerm isIRI host urls elem).
Proof.
  intros Hu. unfold countTerm. destruct (isIRI elem); [| done].
  unfold assign. case_decide; [done |].
  apply written_set; [done |].
  pose proof (plus_orZero_written urls (host elem) Hu) as Hp.
  destruct (inheritedText (host elem)); [done |]. eauto.
Qed.

Lemma total_countTerm urls elem :
  written urls ->
  total (countTerm isIRI host urls elem)
  = total urls + (if decide (own elem) then 1 else 0).
Proof.
  intros Hu. unfold countTerm, countedOwn.
  destruct (isIRI elem); [| rewrite decide_False by (intros [? _]; done); lia].
  pose proof (plus_orZero_written urls (host elem) Hu) as Hp.
  unfold assign. case_decide as Hproto.
  - destruct Hproto as [-> _]. rewrite decide_False by (intros [_ ?]; done). lia.
  - rewrite total_set.
    destruct (inheritedText (host elem)) as [t|] eqn:Ht.
    + destruct Hp as (s & -> & _). rewrite decide_False by (intros [_ ?]; done).
      specialize (Hu (host elem)).
      destruct (obj_get urls (host elem)) as [v|]; simpl; [| lia].
      specialize (Hu v eq_refl). rewrite Ht in Hu. destruct Hu as (s' & -> & _).
      simpl. lia.
    + rewrite Hp, decide_True by done. simpl. lia.
Qed.

Lemma written_countTriple urls t :
  written urls -> written (countTriple isIRI host urls t).
Proof. intros Hu. unfold countTriple. simpl. by do 3 apply written_countTerm. Qed.

Lemma total_countTriple urls t :
  written urls ->
  total (countTriple isIRI host urls t)
  = total urls + Z.of_nat (length (filter (fun p => own (termAt t p))
                                          [InSubject; InPredicate; InObject])).
Proof.
  intros Hu. unfold countTriple. simpl.
  rewrite !total_countTerm by (repeat apply written_countTerm; done).
  rewrite !filter_cons, filter_nil. simpl.
  repeat case_decide; simpl; lia.
Qed.

Lemma countedPairs_cons t ts :
  countedPairs isIRI (t :: ts)
  = ((if decide (graph t = "")
      then map (pair t) (filter (fun p => isIRI (termAt t p) = true)
                                [InSubject; InPredicate; InObject])
      else []) ++ countedPairs isIRI ts)%list.
Proof.
  unfold countedPairs. cbn [list_prod]. rewrite list.filter_app.
  f_equal. simpl. rewrite !filter_cons, !filter_nil. simpl.
  repeat case_decide; simpl; try reflexivity; exfalso; intuition congruence.
Qed.

Lemma ownPairs_cons t ts :
  length (ownPairs isIRI host (t :: ts))
  = ((if decide (graph t = "")
      then length (filter (fun p => own (termAt t p))
                          [InSubject; InPredicate; InObject])
      else 0) + length (ownPairs isIRI host ts))%nat.
Proof.
  unfold ownPairs. rewrite countedPairs_cons, list.filter_app, length_app.
  f_equal. case_decide; [| done].
  unfold countedOwn. rewrite !filter_cons, !filter_nil. simpl.
  repeat (case_decide; simpl; rewrite ?filter_cons, ?filter_nil; simpl);
    try reflexivity; exfalso; intuition congruence.
Qed.

Lemma delivered_cons a calls :
  delivered (a :: calls)
  = match err a, triple a with
    | None, Some t => t :: delivered calls
    | _, _ => delivered calls
    end.
Proof. unfold delivered. simpl. by destruct (err a), (triple a). Qed.

Lemma aggregate_written run calls p s :
  written (urls s) ->
  written (urls (snd (aggregate isIRI host run calls (p, s)))).
Proof.
  revert p s. induction calls as [|a calls IH]; intros p s Hs; [done |].
  unfold aggregate in *. cbn [fold_left]. unfold pageCallback at 2.
  destruct (err a); [by apply IH |].
  destruct (triple a) as [t|].
  - case_decide; apply IH; [done |]. simpl. by apply written_countTriple.
  - case_decide; by apply IH.
Qed.

(** On a map as the counting leaves it, the numbers grow by the counted
    pairs whose host is no property name of [Object.prototype]. *)
Lemma aggregate_total run calls p s :
  written (urls s) ->
  total (urls (snd (aggregate isIRI host run calls (p, s))))
  = total (urls s) + Z.of_nat (length (ownPairs isIRI host (delivered calls))).
Proof.
  revert p s. induction calls as [|a calls IH]; intros p s Hs.
  - simpl. unfold ownPairs, countedPairs. simpl. lia.
  - unfold aggregate in *. cbn [fold_left]. rewrite delivered_cons.
    unfold pageCallback at 2.
    destruct (err a) as [e|]; [by rewrite IH |].
    destruct (triple a) as [t|].
    + rewrite ownPairs_cons. case_decide as Hg.
      * rewrite IH, decide_False by done. lia.
      * rewrite IH by (by apply written_countTriple).
        simpl. rewrite total_countTriple by done.
        rewrite decide_True by (by destruct (decide (graph t = ""))). lia.
    + case_decide; by rewrite IH.
Qed.

End Counting.

(** C2: the counts of a host map do not add up to the counted pairs when a
    host is a property name of [Object.prototype].  A page delivers one
    triple of the default graph whose three terms are IRIs, with the hosts
    [constructor], [a.org] and [__proto__]: three pairs are counted.  The
    map [urls] has no own property [constructor], so [urls[host] || 0]
    reads the inherited function and [+ 1] stores its text followed by
    [1]; the value read for [__proto__] is the prototype object, and the
    assignment of a string to that name stores nothing.  The numbers of
    the map add up to 1. *)
Theorem inherited_host_name_is_not_counted :
  let calls :=
    [ Sample.data "http://constructor/a" "http://a.org/p" "http://__proto__/b";
      Sample.ended ] in
  let fresh := {| Analyse.remainingPages := Some 1; Analyse.urls := [] |} in
  let result :=
    Analyse.urls (snd (Analyse.aggregate Sample.isIRI Sample.host 0 calls
                         (Analyse.Pending, fresh))) in
  length (Analyse.countedPairs Sample.isIRI (Analyse.delivered calls)) = 3%nat ∧
  result = [ ("constructor", Text "function Object() { [native code] }1");
             ("a.org", Number 1) ] ∧
  total result = 1.
Proof. vm_compute. repeat split; reflexivity. Qed.

(** The second scenario of the design: two pages, one triple each; the
    host of the two subjects and of one object is counted three times. *)
Example counting_scenario :
  Analyse.urls (snd (Analyse.aggregate Sample.isIRI Sample.host 0
    [ Sample.data "http://a.org/x" "p" "http://b.org/y"; Sample.ended;
      Sample.control "http://a.org/x" "p" "http://c.org/next";
      Sample.data "http://a.org/x" "p" "http://a.org/z"; Sample.ended ]
    (Analyse.Pending, {| Analyse.remainingPages := Some 2; Analyse.urls := [] |})))
  = [("a.org", Number 3); ("b.org", Number 1)].
Proof. reflexivity. Qed.

(** ** [streamTriples] on a response that is not 200 *)

Section StatusCodes.
Import Stream.

Variable parse : string -> list CbArgs.
Variable showNumber : Z -> string.

(** Building the error message reads [ldfURL], which has no binding where
    [streamTriples] is declared. *)
Lemma statusMessage_raises url body statusCode :
  statusMessage showNumber (scope url body) statusCode
  = inl (ReferenceError "ldfURL").
Proof. reflexivity. Qed.

Lemma streamTriples_other_status url statusCode body :
  statusCode ≠ 200 ->
  streamTriples parse showNumber url (HttpResponse statusCode body)
  = Uncaught (ReferenceError "ldfURL").
Proof. intros H. unfold streamTriples. by rewrite decide_True. Qed.

(** A connection failure and a parser error do reach the callback. *)
Lemma streamTriples_request_failed url e :
  streamTriples parse showNumber url (RequestFailed e)
  = Called [ {| err := Some e; triple := None |} ].
Proof. reflexivity. Qed.

End StatusCodes.

(** C3: what the code does for a page answered with status 500.  The
    request callback of [streamTriples] is left by a [ReferenceError] for
    [ldfURL] before it calls its callback, so the caller receives no error
    value, and the analysis that asked for the page is left as it was: its
    promise is not rejected. *)
Theorem status_500_never_reaches_callback
    (parse : string -> list CbArgs) (showNumber : Z -> string)
    (url body : string) :
  Stream.streamTriples parse showNumber url (Stream.HttpResponse 500 body)
  = Stream.Uncaught (ReferenceError "ldfURL") /\
  forall SAMPLING_FACTOR isIRI host literalInt ldfURL request st,
    Analyse.run SAMPLING_FACTOR isIRI host literalInt ldfURL
      (Analyse.deliver (Analyse.FromPage request)
         (Stream.streamTriples parse showNumber url (Stream.HttpResponse 500 body)))
      st
    = st.
Proof.
  assert (H : Stream.streamTriples parse showNumber url (Stream.HttpResponse 500 body)
              = Stream.Uncaught (ReferenceError "ldfURL"))
    by (by apply streamTriples_other_status).
  split; [exact H |]. intros. by rewrite H.
Qed.

(** ** Root streams that start no sampling *)

Section Traces.
Import Analyse.

Variable SAMPLING_FACTOR : Q.
Variable isIRI : string -> bool.
Variable host : string -> string.
Variable literalInt : string -> option Z.
Variable ldfURL : string.

Abbreviation run' := (run SAMPLING_FACTOR isIRI host literalInt ldfURL).
Abbreviation step' := (step SAMPLING_FACTOR isIRI host literalInt ldfURL).
Abbreviation startSampling' := (startSampling SAMPLING_FACTOR literalInt).

Lemma pagesToSample_nonpos n :
  (0 < SAMPLING_FACTOR)%Q -> n <= 0 ->
  PageSampler.pagesToSample SAMPLING_FACTOR n <= 0.
Proof.
  intros Hr Hn. unfold PageSampler.pagesToSample.
  rewrite <- (Qceiling_Z 0). apply Qceiling_resp_le.
  assert (Hq : (inject_Z n <= 0)%Q)
    by (change 0%Q with (inject_Z 0); by rewrite <- Zle_Qle).
  apply Qle_shift_div_r; [reflexivity |]. change (inject_Z 0) with 0%Q. nra.
Qed.

Lemma pageIndices_nonpos n :
  (0 < SAMPLING_FACTOR)%Q -> n <= 0 ->
  PageSampler.pageIndices SAMPLING_FACTOR n = [].
Proof.
  intros Hr Hn. unfold PageSampler.pageIndices.
  pose proof (pagesToSample_nonpos n Hr Hn).
  by replace (Z.to_nat _) with 0%nat by lia.
Qed.

Lemma startSampling_nonpos o n st :
  (0 < SAMPLING_FACTOR)%Q -> literalInt o = Some n -> n <= 0 ->
  promise (startSampling' o st) = promise st ∧
  requested (startSampling' o st) = requested st.
Proof.
  intros Hr Ho Hn. unfold startSampling. rewrite Ho. simpl.
  rewrite pageIndices_nonpos by done. simpl. by rewrite app_nil_r.
Qed.

Lemma step_silent st ev :
  silent ldfURL ev -> requested st = [] -> step' st ev = st.
Proof.
  intros Hev Hreq. destruct ev as [a|request a]; simpl in *.
  - destruct Hev as [He Ht]. unfold rootCallback. rewrite He.
    destruct (triple a) as [t|]; [| done].
    rewrite decide_False; [done | by apply Ht].
  - by rewrite Hreq.
Qed.

Lemma run_silent evs st :
  Forall (silent ldfURL) evs -> requested st = [] -> run' evs st = st.
Proof.
  intros Hevs. revert st. induction Hevs as [|ev evs Hev _ IH]; intros st Hreq.
  - done.
  - unfold run in *. simpl. rewrite step_silent by done. by apply IH.
Qed.

Lemma step_withoutPositiveSize st ev :
  (0 < SAMPLING_FACTOR)%Q ->
  withoutPositiveSize literalInt ldfURL ev ->
  promise st = Pending -> requested st = [] ->
  promise (step' st ev) = Pending ∧ requested (step' st ev) = [].
Proof.
  intros Hr Hev Hp Hreq. destruct ev as [a|request a]; simpl in *.
  - destruct Hev as [He Ht]. unfold rootCallback. rewrite He.
    destruct (triple a) as [t|]; [| done].
    case_decide as Hm; [| done]. destruct Hm as [Hs Hpr].
    destruct (Ht t eq_refl Hs Hpr) as (n & Hn & Hle).
    by destruct (startSampling_nonpos (object t) n st Hr Hn Hle) as [-> ->].
  - by rewrite Hreq.
Qed.

Lemma run_withoutPositiveSize evs st :
  (0 < SAMPLING_FACTOR)%Q ->
  Forall (withoutPositiveSize literalInt ldfURL) evs ->
  promise st = Pending -> requested st = [] ->
  promise (run' evs st) = Pending ∧ requested (run' evs st) = [].
Proof.
  intros Hr Hevs. revert st.
  induction Hevs as [|ev evs Hev _ IH]; intros st Hp Hreq.
  - done.
  - unfold run in *. simpl.
    destruct (step_withoutPositiveSize st ev Hr Hev Hp Hreq). by apply IH.
Qed.

End Traces.

(** C9: when the callback of the root stream is never called with an error
    nor with a triple whose subject is the endpoint and whose predicate is
    [void#triples], then however far the stream has got, and also once it
    has ended, the call of [analyseData] is in the state it started in:
    its promise is pending, neither fulfilled nor rejected, and no page
    was requested. *)
Theorem analysis_without_metadata_never_settles
    (SAMPLING_FACTOR : Q) (isIRI : string -> bool) (host : string -> string)
    (literalInt : string -> option Z) (ldfURL : string)
    (evs : list Analyse.Event) :
  Forall (Analyse.silent ldfURL) evs ->
  forall k,
    let st := Analyse.run SAMPLING_FACTOR isIRI host literalInt ldfURL
                (take k evs) Analyse.initial in
    Analyse.promise st = Analyse.Pending /\ Analyse.requested st = [] /\
    Analyse.samplings st = [].
Proof.
  intros Hevs k. cbv zeta. rewrite run_silent; [done | | done].
  by apply Forall_take.
Qed.

Lemma analysis_without_metadata_never_settles_witness :
  let evs := [ Analyse.FromRoot (Sample.control Sample.endpoint "http://purl.org/dc/terms/title" "d1");
               Analyse.FromRoot (Sample.data "http://a.org/x" Analyse.voidTriples "12");
               Analyse.FromRoot Sample.ended ] in
  Forall (Analyse.silent Sample.endpoint) evs /\
  Analyse.promise (Analyse.run (1 # 2) Sample.isIRI Sample.host (fun _ => Some 12)
                     Sample.endpoint (take 3 evs) Analyse.initial)
  = Analyse.Pending.
Proof.
  cbv zeta.
  assert (H : Forall (Analyse.silent Sample.endpoint)
    [ Analyse.FromRoot (Sample.control Sample.endpoint "http://purl.org/dc/terms/title" "d1");
      Analyse.FromRoot (Sample.data "http://a.org/x" Analyse.voidTriples "12");
      Analyse.FromRoot Sample.ended ]).
  { repeat constructor; simpl; intros t Ht; try discriminate;
      injection Ht as <-; simpl; intros [Hs Hp]; discriminate. }
  split; [exact H |].
  exact (proj1 (analysis_without_metadata_never_settles (1 # 2) Sample.isIRI
                  Sample.host (fun _ => Some 12) Sample.endpoint _ H 3%nat)).
Defined.

(** C4, as the code has it: a declared size that is not positive is no
    error.  With a positive sampling factor, as long as the root stream
    reports no error and every metadata triple it delivers declares a size
    of 0 or less, no page is requested and the promise stays pending: it
    is not rejected, and it is not fulfilled either. *)
Theorem nonpositive_size_samples_nothing
    (SAMPLING_FACTOR : Q) (isIRI : string -> bool) (host : string -> string)
    (literalInt : string -> option Z) (ldfURL : string)
    (evs : list Analyse.Event) :
  (0 < SAMPLING_FACTOR)%Q ->
  Forall (Analyse.withoutPositiveSize literalInt ldfURL) evs ->
  forall k,
    let st := Analyse.run SAMPLING_FACTOR isIRI host literalInt ldfURL
                (take k evs) Analyse.initial in
    Analyse.promise st = Analyse.Pending /\ Analyse.requested st = [].
Proof.
  intros Hr Hevs k. cbv zeta.
  apply run_withoutPositiveSize; [done | by apply Forall_take | done..].
Qed.

Lemma nonpositive_size_samples_nothing_witness :
  let evs := [ Analyse.FromRoot Sample.size; Analyse.FromRoot Sample.ended ] in
  let st := Analyse.run (1 # 2) Sample.isIRI Sample.host (fun _ => Some (-3))
              Sample.endpoint (take 2 evs) Analyse.initial in
  Analyse.promise st = Analyse.Pending /\ Analyse.requested st = [].
Proof.
  cbv zeta.
  apply (nonpositive_size_samples_nothing (1 # 2) Sample.isIRI Sample.host
           (fun _ => Some (-3)) Sample.endpoint
           [ Analyse.FromRoot Sample.size; Analyse.FromRoot Sample.ended ]).
  - reflexivity.
  - repeat constructor; simpl; intros t Ht; try discriminate.
    intros _ _. exists (-3). split; [reflexivity | lia].
Defined.

(** A root resource that declares 0 triples: the stream ends and the
    promise is still pending; it was not rejected. *)
Lemma zero_size_is_not_rejected :
  let st := Analyse.run (1 # 2) Sample.isIRI Sample.host (fun _ => Some 0)
              Sample.endpoint
              [ Analyse.FromRoot Sample.size; Analyse.FromRoot Sample.ended ]
              Analyse.initial in
  Analyse.promise st = Analyse.Pending /\
  ~ exists e, Analyse.promise st = Analyse.Rejected e.
Proof.
  cbv zeta. split; [reflexivity |]. intros [e He]. vm_compute in He. discriminate.
Qed.

(** A complete run of [analyseData]: 150 triples at factor 0.5 give two
    pages, of which one is sampled; when its stream ends the promise is
    fulfilled with the host map. *)
Example analysis_run :
  let st := Analyse.run (1 # 2) Sample.isIRI Sample.host (fun _ => Some 150)
              Sample.endpoint
              [ Analyse.FromRoot Sample.size; Analyse.FromRoot Sample.ended;
                Analyse.FromPage 0 (Sample.data "http://a.org/x" "http://b.org/p" "lit");
                Analyse.FromPage 0 Sample.ended ]
              Analyse.initial in
  Analyse.requested st = [(0%nat, 1%Q)] /\
  Analyse.promise st = Analyse.Fulfilled 0 /\
  Analyse.fulfilledWith st = Some [("a.org", Number 1); ("b.org", Number 1)].
Proof. vm_compute. done. Qed.

(** ** The dominant host *)

Section Scan.
Variable m : Obj Prim.

(** The loop of [process] run over any list of keys from any state: either
    no key beats the count it started with, or the result is the first key
    of the list whose count is the largest.  Only a number is a count. *)
Lemma scan_spec ks best occ :
  (fold_left (scanKey m) ks (best, occ) = (best, occ) ∧
   ∀ k n, k ∈ ks -> obj_get m k = Some (Number n) -> n <= occ) ∨
  (∃ before k after n,
     ks = (before ++ k :: after)%list ∧
     fold_left (scanKey m) ks (best, occ) = (Some k, n) ∧
     obj_get m k = Some (Number n) ∧ occ < n ∧
     (∀ k' n', k' ∈ before -> obj_get m k' = Some (Number n') -> n' < n) ∧
     (∀ k' n', k' ∈ after -> obj_get m k' = Some (Number n') -> n' <= n)).
Proof.
  revert best occ. induction ks as [|k0 ks IH]; intros best occ.
  - left. split; [done |]. intros k n Hk. by apply elem_of_nil in Hk.
  - cbn [fold_left]. unfold scanKey at 2 4. simpl.
    destruct (obj_get m k0) as [[n0|s0]|] eqn:Hk0.
    + case_decide as Hgt.
      * right.
        destruct (IH (Some k0) n0)
          as [[-> Hle] | (before & k & after & n & -> & -> & Hk & Hlt & Hb & Ha)].
        -- exists [], k0, ks, n0. repeat split; [done | lia | | done].
           intros k' n' Hk'. by apply elem_of_nil in Hk'.
        -- exists (k0 :: before), k, after, n. repeat split; [done | lia | | done].
           intros k' n' [-> | Hk']%elem_of_cons Hg; [| by eauto].
           rewrite Hk0 in Hg. injection Hg as <-. lia.
      * destruct (IH best occ)
          as [[-> Hle] | (before & k & after & n & -> & -> & Hk & Hlt & Hb & Ha)].
        -- left. split; [done |].
           intros k n [-> | Hk]%elem_of_cons Hg; [| by eauto].
           rewrite Hk0 in Hg. injection Hg as <-. lia.
        -- right. exists (k0 :: before), k, after, n.
           repeat split; [done.. | | done].
           intros k' n' [-> | Hk']%elem_of_cons Hg; [| by eauto].
           rewrite Hk0 in Hg. injection Hg as <-. lia.
    + destruct (IH best occ)
        as [[-> Hle] | (before & k & after & n & -> & -> & Hk & Hlt & Hb & Ha)].
      * left. split; [done |].
        intros k n [-> | Hk]%elem_of_cons Hg; [congruence | by eauto].
      * right. exists (k0 :: before), k, after, n.
        repeat split; [done.. | | done].
        intros k' n' [-> | Hk']%elem_of_cons Hg; [congruence | by eauto].
    + destruct (IH best occ)
        as [[-> Hle] | (before & k & after & n & -> & -> & Hk & Hlt & Hb & Ha)].
      * left. split; [done |].
        intros k n [-> | Hk]%elem_of_cons Hg; [congruence | by eauto].
      * right. exists (k0 :: before), k, after, n.
        repeat split; [done.. | | done].
        intros k' n' [-> | Hk']%elem_of_cons Hg; [congruence | by eauto].
Qed.

End Scan.

(** C10: on a dataset whose host map is empty [process] selects nothing:
    [mostOccurringHost] is [null], the provenance record is that of the
    dataset, and [referencedHosts] is the same, still empty, map; deleting
    the property [null] changed no object. *)
Theorem process_empty_map (h : nat -> Obj Prim) (datasetInfo : Dataset.t) :
  h (Dataset.hostOccurrences datasetInfo) = [] ->
  let (h', p) := process h datasetInfo in
  Processed.mostOccurringHost p = None /\
  Processed.provenance p
  = {| ldf := Dataset.ldfEndpoint datasetInfo;
       url := Dataset.source datasetInfo;
       numTriples := Dataset.triples datasetInfo |} /\
  Processed.referencedHosts p = Dataset.hostOccurrences datasetInfo /\
  h' (Processed.referencedHosts p) = [] /\
  forall l, h' l = h l.
Proof.
  intros He. unfold process. rewrite He. simpl.
  repeat split; [by rewrite fn_lookup_insert |].
  intros l. destruct (decide (l = Dataset.hostOccurrences datasetInfo)) as [-> |].
  - by rewrite fn_lookup_insert.
  - by rewrite fn_lookup_insert_ne.
Qed.

Lemma process_empty_map_witness :
  let (h', p) := process Sample.heap (Sample.dataset 7) in
  Processed.mostOccurringHost p = None /\
  Processed.provenance p
  = {| ldf := Sample.endpoint; url := "http://foo.org/d1.nt"; numTriples := 100 |} /\
  Processed.referencedHosts p = 7%nat /\
  h' (Processed.referencedHosts p) = [] /\
  forall l, h' l = Sample.heap l.
Proof. apply (process_empty_map Sample.heap (Sample.dataset 7)). reflexivity. Defined.




(** Ties go to the key met first, and the selected key is deleted. *)
Example process_tie :
  let h : nat -> Obj Prim :=
    fun _ => [("a.org", Number 2); ("b.org", Number 4); ("c.org", Number 4)] in
  let (h', p) := process h (Sample.dataset 0) in
  Processed.mostOccurringHost p = Some "b.org" /\
  h' 0%nat = [("a.org", Number 2); ("c.org", Number 4)].
Proof. vm_compute. done. Qed.

(** ** The merge *)

Lemma reduce_snoc h l d : reduce h (l ++ [d]) = merge (reduce h l) d.
Proof. unfold reduce. by rewrite fold_left_app. Qed.

Lemma group_snoc k l d :
  group k (l ++ [d]) = (group k l ++ if decide (keyOf d = k) then [d] else [])%list.
Proof.
  unfold group. by rewrite list.filter_app.
Qed.

Lemma sumZ_cons x l : sumZ (x :: l) = x + sumZ l.
Proof. reflexivity. Qed.

Lemma sumZ_app l1 l2 : sumZ (l1 ++ l2) = sumZ l1 + sumZ l2.
Proof. unfold sumZ. induction l1; simpl; lia. Qed.

(** *** The effect of [addCounts] on the heap *)

Lemma addCount_frame from target h key p :
  p ≠ target -> addCount from target h key p = h p.
Proof.
  intros Hp. unfold addCount. destruct (obj_get (h from) key); [| done].
  by rewrite fn_lookup_insert_ne.
Qed.

Lemma fold_addCount_frame from target ks h p :
  p ≠ target -> fold_left (addCount from target) ks h p = h p.
Proof.
  intros Hp. revert h. induction ks as [|k ks IH]; intros h; simpl; [done |].
  by rewrite IH, addCount_frame.
Qed.

Lemma addCounts_frame from target h p :
  p ≠ target -> addCounts from target h p = h p.
Proof. apply fold_addCount_frame. Qed.

Lemma obj_get_assign o key v x :
  obj_get (assign o key v) x
  = if decide (key = x)
    then (if decide (x = "__proto__" ∧ obj_get o x = None) then None else Some v)
    else obj_get o x.
Proof.
  unfold assign. destruct (decide (key = x)) as [-> | Hne].
  - case_decide as Hp; [tauto |]. by rewrite obj_get_set, decide_True.
  - case_decide; [done |]. by rewrite obj_get_set, decide_False.
Qed.

Lemma addCount_target from target h key x :
  obj_get (addCount from target h key target) x
  = if decide (key = x)
    then addValue x (obj_get (h target) x) (obj_get (h from) x)
    else obj_get (h target) x.
Proof.
  unfold addCount. destruct (decide (key = x)) as [-> | Hne].
  - destruct (obj_get (h from) x) as [v|]; [| done].
    rewrite fn_lookup_insert, obj_get_assign, decide_True by done. done.
  - destruct (obj_get (h from) key) as [v|]; [| done].
    by rewrite fn_lookup_insert, obj_get_assign, decide_False.
Qed.

Lemma fold_addCount_target from target ks h x :
  from ≠ target -> NoDup ks ->
  obj_get (fold_left (addCount from target) ks h target) x
  = if decide (x ∈ ks)
    then addValue x (obj_get (h target) x) (obj_get (h from) x)
    else obj_get (h target) x.
Proof.
  intros Hne Hnd. revert h. induction Hnd as [|k ks Hk Hnd IH]; intros h.
  - cbn [fold_left]. case_decide as Hin; [by apply elem_of_nil in Hin | done].
  - cbn [fold_left]. rewrite IH, addCount_target.
    rewrite (addCount_frame from target h k from) by done.
    destruct (decide (k = x)) as [-> | Hkx].
    + rewrite decide_False by done. rewrite decide_True by left. done.
    + destruct (decide (x ∈ ks)) as [Hin | Hnin].
      * rewrite decide_True by (by right). done.
      * rewrite decide_False; [done |].
        intros [-> | Hin]%elem_of_cons; done.
Qed.

Lemma addCounts_target from target h x :
  from ≠ target -> NoDup (obj_keys (h from)) ->
  obj_get (addCounts from target h target) x
  = addValue x (obj_get (h target) x) (obj_get (h from) x).
Proof.
  intros Hne Hnd. unfold addCounts. rewrite fold_addCount_target by done.
  case_decide as Hin; [done |].
  apply obj_get_None_keys in Hin. by rewrite Hin.
Qed.

Local Abbreviation rh := Processed.referencedHosts.

Lemma group_elem k l d0 rest :
  group k l = d0 :: rest -> d0 ∈ l ∧ keyOf d0 = k.
Proof.
  intros Hg. assert (Hin : d0 ∈ group k l) by (rewrite Hg; left).
  apply list_elem_of_filter in Hin. tauto.
Qed.

(** *** The accumulator *)

Lemma reduce_shape h l k :
  match group k l with
  | [] => obj_get (reduce h l).2 k = None
  | d0 :: rest =>
      ∃ e, obj_get (reduce h l).2 k = Some e ∧
           Entry.triples e = sumZ (declared <$> d0 :: rest) ∧
           Entry.provenance e = Processed.provenance <$> d0 :: rest ∧
           Entry.referencedHosts e = rh d0
  end.
Proof.
  revert k. induction l as [|d l IH] using rev_ind; intros k; [done |].
  rewrite reduce_snoc, group_snoc. specialize (IH k).
  destruct (reduce h l) as [h' acc]. unfold merge. fold (keyOf d).
  cbn [fst snd] in *.
  destruct (decide (keyOf d = k)) as [Hk | Hk].
  - rewrite Hk. destruct (group k l) as [|d0 rest].
    + rewrite IH. cbn [snd app]. rewrite obj_get_set, decide_True by done.
      eexists. split; [done |]. cbn. unfold declared. repeat split. lia.
    + destruct IH as (e & -> & Ht & Hp & Hr). cbn [snd].
      rewrite obj_get_set, decide_True by done.
      eexists. split; [done |]. cbn [Entry.triples Entry.provenance Entry.referencedHosts].
      rewrite Ht, Hp, !fmap_cons, !fmap_app, !sumZ_cons, sumZ_app.
      repeat split; [| done]. unfold sumZ, declared. cbn. lia.
  - rewrite app_nil_r.
    destruct (obj_get acc (keyOf d)); cbn [snd]; by rewrite obj_get_set, decide_False.
Qed.

Lemma reduce_entry h l k e :
  obj_get (reduce h l).2 k = Some e ->
  ∃ d0 rest, group k l = d0 :: rest ∧
    Entry.triples e = sumZ (declared <$> d0 :: rest) ∧
    Entry.provenance e = Processed.provenance <$> d0 :: rest ∧
    Entry.referencedHosts e = rh d0.
Proof.
  intros He. pose proof (reduce_shape h l k) as Hs.
  destruct (group k l) as [|d0 rest]; [congruence |].
  destruct Hs as (e' & He' & ?). exists d0, rest.
  rewrite He in He'. injection He' as <-. done.
Qed.

Lemma reduce_frame h l p :
  (∀ k d0 rest, group k l = d0 :: rest -> rh d0 ≠ p) ->
  (reduce h l).1 p = h p.
Proof.
  induction l as [|d l IH] using rev_ind; intros Hp; [done |].
  rewrite reduce_snoc.
  assert (Hl : ∀ k d0 rest, group k l = d0 :: rest -> rh d0 ≠ p).
  { intros k d0 rest Hg. apply (Hp k d0 (rest ++ if decide (keyOf d = k) then [d] else [])%list).
    by rewrite group_snoc, Hg. }
  specialize (IH Hl).
  pose proof (reduce_shape h l (keyOf d)) as Hs.
  destruct (reduce h l) as [h' acc]. unfold merge. fold (keyOf d).
  cbn [fst snd] in *.
  destruct (group (keyOf d) l) as [|d0 rest] eqn:Hg.
  - by rewrite Hs.
  - destruct Hs as (e & -> & _ & _ & Hr). cbn [fst].
    rewrite addCounts_frame; [done |]. rewrite Hr. symmetry. by eapply Hl.
Qed.

(** *** The merged counts *)

Lemma NoDup_fmap_eq {A B} (f : A -> B) (l : list A) x y :
  NoDup (f <$> l) -> x ∈ l -> y ∈ l -> f x = f y -> x = y.
Proof.
  induction l as [|a l IH]; intros Hnd Hx Hy Hf.
  - by apply elem_of_nil in Hx.
  - rewrite fmap_cons in Hnd. apply list.NoDup_cons in Hnd as [Ha Hnd].
    apply elem_of_cons in Hx as [-> | Hx]; apply elem_of_cons in Hy as [-> | Hy].
    + done.
    + exfalso. apply Ha. rewrite Hf. by apply list_elem_of_fmap_2.
    + exfalso. apply Ha. rewrite <- Hf. by apply list_elem_of_fmap_2.
    + by apply IH.
Qed.

Lemma counts_snoc h x ds d :
  counts h x (ds ++ [d]) = (counts h x ds ++ [obj_get (h (rh d)) x])%list.
Proof. unfold counts. by rewrite fmap_app. Qed.

Lemma merged_snoc x v0 vs v :
  merged x ((v0 :: vs) ++ [v]) = addValue x (merged x (v0 :: vs)) v.
Proof. cbn [merged app]. by rewrite fold_left_app. Qed.

Lemma reduce_counts h l :
  NoDup (rh <$> l) ->
  (∀ d, d ∈ l -> NoDup (obj_keys (h (rh d)))) ->
  ∀ k e x, obj_get (reduce h l).2 k = Some e ->
    obj_get ((reduce h l).1 (Entry.referencedHosts e)) x
    = merged x (counts h x (group k l)).
Proof.
  induction l as [|d l IH] using rev_ind; intros Hnd Hwf k e x; [done |].
  rewrite fmap_app in Hnd. apply list.NoDup_app in Hnd as (Hnd & Hfresh & _).
  assert (Hd : rh d ∉ rh <$> l).
  { intros Hin. apply (Hfresh _ Hin). left. }
  assert (Hwf' : ∀ d', d' ∈ l -> NoDup (obj_keys (h (rh d')))).
  { intros d' Hd'. apply Hwf, elem_of_app. by left. }
  specialize (IH Hnd Hwf').
  assert (Hunch : (reduce h l).1 (rh d) = h (rh d)).
  { apply reduce_frame. intros k' d0 rest [Hin _]%group_elem Heq.
    apply Hd. rewrite <- Heq. by apply list_elem_of_fmap_2. }
  pose proof (reduce_shape h l (keyOf d)) as Hs.
  pose proof (fun e' => reduce_entry h l k e') as Hk.
  rewrite reduce_snoc, group_snoc.
  destruct (reduce h l) as [h' acc]. unfold merge. fold (keyOf d).
  cbn [fst snd] in *.
  destruct (group (keyOf d) l) as [|d0 rest] eqn:Hg.
  - rewrite Hs. cbn [fst snd]. rewrite obj_get_set.
    destruct (decide (keyOf d = k)) as [<- | Hne].
    + intros [= <-]. cbn [Entry.referencedHosts]. by rewrite Hunch, Hg.
    + intros He. rewrite app_nil_r. by apply IH.
  - destruct Hs as (e0 & He0 & _ & _ & Hr0). rewrite He0. cbn [fst snd].
    rewrite obj_get_set.
    assert (Hd0 : d0 ∈ l ∧ keyOf d0 = keyOf d) by (by eapply group_elem).
    assert (Hne0 : rh d ≠ Entry.referencedHosts e0).
    { rewrite Hr0. intros Heq. apply Hd. rewrite Heq.
      apply list_elem_of_fmap_2. tauto. }
    destruct (decide (keyOf d = k)) as [<- | Hne].
    + intros [= <-]. cbn [Entry.referencedHosts].
      rewrite addCounts_target; [| done | rewrite Hunch; apply Hwf, elem_of_app; right; left].
      rewrite Hunch, (IH _ _ _ He0), Hg. unfold counts.
      rewrite fmap_app, !fmap_cons. by rewrite merged_snoc.
    + intros He. rewrite app_nil_r.
      destruct (Hk e He) as (d1 & rest1 & Hg1 & _ & _ & Hr1).
      apply group_elem in Hg1 as [Hin1 Hk1].
      rewrite addCounts_frame; [by apply IH |].
      rewrite Hr0, Hr1. intros Heq.
      assert (d1 = d0) by (eapply (NoDup_fmap_eq rh); [done | done | tauto | done]).
      subst d1. destruct Hd0 as [_ Hk0]. congruence.
Qed.

Lemma sumZ_Permutation l1 l2 : l1 ≡ₚ l2 -> sumZ l1 = sumZ l2.
Proof. induction 1; rewrite ?sumZ_cons; lia. Qed.

(** On maps of numbers under names that [Object.prototype] does not have
    the merged value of a host is the sum of the numbers that are there. *)
Lemma addValue_numbers x acc v :
  inheritedText x = None ->
  addValue x (Number <$> acc) (Number <$> v)
  = Number <$> match v with
               | Some n => Some (default 0 acc + n)
               | None => acc
               end.
Proof.
  intros Hx. destruct v as [n|]; [| done]. cbn [fmap option_fmap option_map addValue].
  rewrite decide_False by (intros [-> _]; discriminate).
  destruct acc as [m|]; [done |].
  cbn [fmap option_fmap option_map]. unfold operand. by rewrite Hx.
Qed.

Lemma fold_addValue_numbers x vs acc :
  inheritedText x = None ->
  fold_left (addValue x) (fmap Number <$> vs) (Number <$> acc)
  = Number <$> match omap id vs with
               | [] => acc
               | ps => Some (default 0 acc + sumZ ps)
               end.
Proof.
  intros Hx. revert acc. induction vs as [|[n|] vs IH]; intros acc; [done | |].
  - rewrite fmap_cons. cbn [fold_left]. rewrite addValue_numbers, IH by done.
    cbn [omap list_omap id default].
    destruct (omap id vs) as [|n' ps]; rewrite ?sumZ_cons;
      unfold sumZ, id; cbn [foldr]; do 2 f_equal; lia.
  - rewrite fmap_cons. cbn [fold_left]. rewrite addValue_numbers, IH by done.
    done.
Qed.

Lemma merged_numbers x vs :
  inheritedText x = None ->
  merged x (fmap Number <$> vs)
  = Number <$> match omap id vs with
               | [] => None
               | ps => Some (sumZ ps)
               end.
Proof.
  intros Hx. destruct vs as [|v vs]; [done |].
  rewrite fmap_cons. cbn [merged]. rewrite fold_addValue_numbers by done.
  destruct v as [n|]; cbn [omap list_omap id].
  - destruct (omap id vs) as [|n' ps]; cbn [default]; rewrite ?sumZ_cons.
    + unfold sumZ, id. cbn. do 2 f_equal. lia.
    + unfold id. done.
  - destruct (omap id vs); cbn [default]; do 2 f_equal.
Qed.

Lemma plain_counts h x ds :
  (∀ d, d ∈ ds -> plain (h (rh d))) ->
  (inheritedText x = None ∧
   ∃ vs : list (option Z),
     counts h x ds = fmap (M:=list) (fmap (M:=option) Number) vs) ∨
  (inheritedText x ≠ None ∧ Forall (fun v => v = None) (counts h x ds)).
Proof.
  intros Hp. destruct (inheritedText x) as [t|] eqn:Hx.
  - right. split; [done |]. unfold counts. apply Forall_fmap, list.Forall_forall.
    intros d Hd. cbn. destruct (obj_get (h (rh d)) x) as [v|] eqn:Hv; [| done].
    destruct (Hp d Hd x v Hv) as [Hno _]. congruence.
  - left. split; [done |]. induction ds as [|d ds IH].
    + by exists [].
    + destruct IH as (vs & Hvs).
      { intros d' Hd'. apply Hp. by right. }
      unfold counts in *. rewrite fmap_cons, Hvs.
      destruct (obj_get (h (rh d)) x) as [v|] eqn:Hv.
      * destruct (Hp d ltac:(left) x v Hv) as (_ & n & ->). by exists (Some n :: vs).
      * by exists (None :: vs).
Qed.

Lemma merged_all_None x vs : Forall (fun v => v = None) vs -> merged x vs = None.
Proof.
  destruct 1 as [|v vs -> Hvs]; [done |]. cbn [merged].
  induction Hvs as [|v vs -> _ IH]; [done |]. by cbn.
Qed.

Lemma merged_plain_Permutation h x ds ds' :
  ds ≡ₚ ds' ->
  (∀ d, d ∈ ds -> plain (h (rh d))) ->
  merged x (counts h x ds) = merged x (counts h x ds').
Proof.
  intros Hperm Hp.
  assert (Hc : counts h x ds ≡ₚ counts h x ds') by (unfold counts; by rewrite Hperm).
  destruct (plain_counts h x ds Hp) as [(Hx & vs & Hvs) | (Hx & Hall)].
  - assert (Hp' : ∀ d, d ∈ ds' -> plain (h (rh d))).
    { intros d Hd. apply Hp. by rewrite Hperm. }
    destruct (plain_counts h x ds' Hp') as [(_ & vs' & Hvs') | (Hx' & _)]; [| done].
    rewrite Hvs, Hvs' in *. rewrite !merged_numbers by done.
    assert (Hvv : vs ≡ₚ vs').
    { assert (Hinj : omap (fun v : option Prim =>
                             Some (match v with
                                   | Some (Number n) => Some n
                                   | _ => None
                                   end)) (fmap Number <$> vs)
                     ≡ₚ omap (fun v : option Prim =>
                                Some (match v with
                                      | Some (Number n) => Some n
                                      | _ => None
                                      end)) (fmap Number <$> vs'))
        by (by rewrite Hc).
      assert (Hid : ∀ ws : list (option Z),
                omap (fun v : option Prim =>
                        Some (match v with
                              | Some (Number n) => Some n
                              | _ => None
                              end)) (fmap Number <$> ws) = ws).
      { induction ws as [|[w|] ws IHw]; [done | |];
          rewrite fmap_cons; cbn [omap list_omap fmap option_fmap option_map];
          by rewrite IHw. }
      by rewrite !Hid in Hinj. }
    assert (Ho : omap id vs ≡ₚ omap id vs') by (by rewrite Hvv).
    pose proof (sumZ_Permutation _ _ Ho) as Hs.
    destruct (omap id vs) as [|n1 p1], (omap id vs') as [|n2 p2]; try done.
    + by apply Permutation_nil_cons in Ho.
    + symmetry in Ho. by apply Permutation_nil_cons in Ho.
    + by rewrite Hs.
  - rewrite !merged_all_None; [done | | done].
    by rewrite <- Hc.
Qed.

(** C6: the merged [referencedHosts] depends on the order of the input
    when a sampled host is a property name of [Object.prototype].  Two
    datasets have the dominant host [foo.org]; the page of the first refers
    to [b.org], the page of the second to a host named [constructor], for
    which the page callback stored a string.  With the first dataset in
    front the entry starts from its map, which has no own property
    [constructor]: [sum[key] || 0] reads the inherited function, and its
    text is put before the string of the second dataset.  With the second
    dataset in front the entry starts from the map that holds the string
    and only [b.org] is added.  The [triples] agree. *)
Theorem merge_depends_on_order :
  Sample3.heap 0%nat = [("foo.org", Number 2); ("b.org", Number 1)] /\
  Sample3.heap 1%nat
  = [("foo.org", Number 2);
     ("constructor", Text "function Object() { [native code] }1")] /\
  let (h1, acc1) := summarise Sample3.heap [Sample3.first; Sample3.second] in
  let (h2, acc2) := summarise Sample3.heap [Sample3.second; Sample3.first] in
  exists e1 e2,
    acc1 = [("foo.org", e1)] /\ acc2 = [("foo.org", e2)] /\
    Entry.triples e1 = Entry.triples e2 /\
    h1 (Entry.referencedHosts e1)
    = [("b.org", Number 1);
       ("constructor",
        Text "function Object() { [native code] }function Object() { [native code] }1")] /\
    h2 (Entry.referencedHosts e2)
    = [("constructor", Text "function Object() { [native code] }1");
       ("b.org", Number 1)] /\
    obj_get (h1 (Entry.referencedHosts e1)) "constructor"
    <> obj_get (h2 (Entry.referencedHosts e2)) "constructor".
Proof.
  split; [reflexivity |]. split; [reflexivity |].
  vm_compute. do 2 eexists. repeat split. discriminate.
Qed.

(** C7: in every output of the merge the [triples] of an entry is the sum
    of the [numTriples] of the records of its provenance list. *)
Theorem merged_triples_sum (h : nat -> Obj Prim) (l : list Processed.t)
    (k : string) (e : Entry.t) :
  obj_get (snd (reduce h l)) k = Some e ->
  Entry.triples e = sumZ (numTriples <$> Entry.provenance e).
Proof.
  intros He. destruct (reduce_entry h l k e He) as (d0 & rest & _ & -> & -> & _).
  by rewrite <- list_fmap_compose.
Qed.

Lemma merged_triples_sum_witness :
  let e := {| Entry.triples := 300;
              Entry.provenance := [Processed.provenance Sample.first;
                                   Processed.provenance Sample.second];
              Entry.referencedHosts := 0%nat |} in
  obj_get (snd (reduce Sample.heap [Sample.first; Sample.second])) "foo.org" = Some e /\
  Entry.triples e = sumZ (numTriples <$> Entry.provenance e).
Proof.
  cbv zeta. split; [reflexivity |].
  apply (merged_triples_sum Sample.heap [Sample.first; Sample.second] "foo.org").
  reflexivity.
Defined.

(** The third scenario of the design: two datasets with dominant host
    [foo.org] and 100 and 200 triples merge into one entry with 300
    triples, both provenance records and the summed host counts. *)
Example merge_scenario :
  let (h', acc) := reduce Sample.heap [Sample.first; Sample.second] in
  exists e, acc = [("foo.org", e)] /\
    Entry.triples e = 300 /\
    Entry.provenance e
    = [Processed.provenance Sample.first; Processed.provenance Sample.second] /\
    h' (Entry.referencedHosts e) = [("b.org", Number 3); ("c.org", Number 5)].
Proof. vm_compute. eexists. repeat split. Qed.

(** C8, as the code has it: a new entry is seeded with the host map of the
    processed dataset itself, not with a copy, and the later datasets of
    the same dominant host are added into that object.  In every output of
    the merge the [referencedHosts] of an entry is the object of the first
    dataset filed under its key; when the host maps of the datasets are
    distinct objects, that object holds afterwards, for every host, what
    the maps of the later datasets of the key added one by one to the
    value it had; and the merge writes to these objects only: every other
    host map is left as it was. *)
Theorem merge_writes_into_first_host_map (h : nat -> Obj Prim) (l : list Processed.t) :
  let (h', acc) := reduce h l in
  (forall k e, obj_get acc k = Some e ->
     exists d0 rest, group k l = d0 :: rest /\
       Entry.referencedHosts e = Processed.referencedHosts d0 /\
       (NoDup (Processed.referencedHosts <$> l) ->
        (forall d, d ∈ l -> NoDup (obj_keys (h (Processed.referencedHosts d)))) ->
        forall x, obj_get (h' (Processed.referencedHosts d0)) x
                  = merged x (counts h x (d0 :: rest)))) /\
  (forall p,
     (forall k d0 rest, group k l = d0 :: rest -> Processed.referencedHosts d0 <> p) ->
     h' p = h p).
Proof.
  pose proof (reduce_entry h l) as He. pose proof (reduce_frame h l) as Hf.
  pose proof (reduce_counts h l) as Hc.
  destruct (reduce h l) as [h' acc]. cbn [fst snd] in *. split; [| done].
  intros k e Hk. destruct (He k e Hk) as (d0 & rest & Hg & _ & _ & Hr).
  exists d0, rest. repeat split; [done.. |].
  intros Hnd Hwf x. by rewrite <- Hr, (Hc Hnd Hwf k e x Hk), Hg.
Qed.

Lemma merge_writes_into_first_host_map_witness :
  let (h', acc) := reduce Sample.heap [Sample.first; Sample.second] in
  exists e, obj_get acc "foo.org" = Some e /\
    Entry.referencedHosts e = Processed.referencedHosts Sample.first /\
    forall x, obj_get (h' (Processed.referencedHosts Sample.first)) x
              = merged x (counts Sample.heap x [Sample.first; Sample.second]).
Proof.
  pose proof (merge_writes_into_first_host_map Sample.heap
                [Sample.first; Sample.second]) as H.
  destruct (reduce Sample.heap [Sample.first; Sample.second]) as [h' acc] eqn:Hr.
  destruct H as [H _].
  assert (Hacc : acc = snd (reduce Sample.heap [Sample.first; Sample.second]))
    by (by rewrite Hr).
  pose (e := {| Entry.triples := 300;
                Entry.provenance := [Processed.provenance Sample.first;
                                     Processed.provenance Sample.second];
                Entry.referencedHosts := 0%nat |}).
  assert (He : obj_get acc "foo.org" = Some e) by (rewrite Hacc; reflexivity).
  destruct (H "foo.org" e He) as (d0 & rest & Hg & Hd0 & Hx).
  injection Hg as <- <-.
  exists e. split; [done |]. split; [done |].
  apply Hx.
  - apply (bool_decide_unpack _). reflexivity.
  - intros d Hd. repeat (apply elem_of_cons in Hd as [-> | Hd]);
      [apply (bool_decide_unpack _); reflexivity.. | by apply elem_of_nil in Hd].
Defined.

(** Merging a second dataset with the same dominant host changes the host
    map of the first input: the entry holds that very object, and the
    counts of the second are added into it. *)
Lemma merge_modifies_first_input :
  let (h', acc) := reduce Sample.heap [Sample.first; Sample.second] in
  (Entry.referencedHosts <$> obj_get acc "foo.org")
  = Some (Processed.referencedHosts Sample.first) /\
  h' (Processed.referencedHosts Sample.first)
  = [("b.org", Number 3); ("c.org", Number 5)] /\
  h' (Processed.referencedHosts Sample.first)
  <> Sample.heap (Processed.referencedHosts Sample.first).
Proof. vm_compute. repeat split. discriminate. Qed.

(** ** Host maps keep their keys unique *)

(** The assumption of unique keys made on the host maps of the merge is
    kept by every operation of the script on an object. *)
Lemma obj_keys_set {V} (o : Obj V) key v :
  obj_keys (obj_set o key v)
  = if decide (key ∈ obj_keys o) then obj_keys o else (obj_keys o ++ [key])%list.
Proof.
  unfold obj_keys. induction o as [|[k w] o IH]; cbn [obj_set map fst].
  - case_decide as Hin; [by apply elem_of_nil in Hin | done].
  - destruct (decide (k = key)) as [-> | Hne]; cbn [map fst].
    + clear IH. case_decide as Hin; [done | exfalso; apply Hin; left].
    + rewrite IH. clear IH. repeat case_decide; try done; exfalso.
      * match goal with H : ¬ _ |- _ => apply H end. by right.
      * match goal with H : _ ∈ _ :: _ |- _ => apply elem_of_cons in H as [-> | ?] end; done.
Qed.

Lemma obj_set_NoDup {V} (o : Obj V) key v :
  NoDup (obj_keys o) -> NoDup (obj_keys (obj_set o key v)).
Proof.
  intros Hnd. rewrite obj_keys_set. case_decide as Hin; [done |].
  apply list.NoDup_app. repeat split; [done | | apply NoDup_singleton].
  intros x Hx [-> | Hx']%elem_of_cons; [done | by apply elem_of_nil in Hx'].
Qed.

Lemma assign_NoDup o key v :
  NoDup (obj_keys o) -> NoDup (obj_keys (assign o key v)).
Proof. intros Hnd. unfold assign. case_decide; [done | by apply obj_set_NoDup]. Qed.

Lemma countTriple_NoDup isIRI host urls t :
  NoDup (obj_keys urls) ->
  NoDup (obj_keys (Analyse.countTriple isIRI host urls t)).
Proof.
  unfold Analyse.countTriple.
  generalize [subject t; predicate t; object t]. intros terms. revert urls.
  induction terms as [|term terms IH]; intros urls Hu; [done |].
  simpl. apply IH. unfold Analyse.countTerm. destruct (isIRI term); [| done].
  by apply assign_NoDup.
Qed.

Lemma aggregate_NoDup isIRI host run calls p s :
  NoDup (obj_keys (Analyse.urls s)) ->
  NoDup (obj_keys (Analyse.urls (snd (Analyse.aggregate isIRI host run calls (p, s))))).
Proof.
  revert p s. induction calls as [|a calls IH]; intros p s Hs; [done |].
  unfold Analyse.aggregate in *. cbn [fold_left]. unfold Analyse.pageCallback at 2.
  destruct (err a); [by apply IH |].
  destruct (triple a) as [t|].
  - case_decide; apply IH; [done |]. simpl. by apply countTriple_NoDup.
  - case_decide; by apply IH.
Qed.

Lemma obj_delete_NoDup {V} (o : Obj V) key :
  NoDup (obj_keys o) -> NoDup (obj_keys (obj_delete o key)).
Proof.
  unfold obj_delete. induction o as [|[k w] o IH]; [done |].
  simpl. intros [Hk Hnd]%list.NoDup_cons. rewrite filter_cons. simpl.
  case_decide; [| by apply IH]. simpl. apply list.NoDup_cons. split; [| by apply IH].
  intros Hin. apply Hk. clear -Hin. induction o as [|[k' w'] o IH]; [done |].
  rewrite filter_cons in Hin. simpl in *. case_decide; simpl in *.
  - apply elem_of_cons in Hin as [-> | Hin]; [left | right; by apply IH].
  - right. by apply IH.
Qed.

(** The two steps after the analyses, on two datasets that share their
    dominant host. *)
Example pipeline :
  let h : nat -> Obj Prim := fun l =>
    match l with
    | 0%nat => [("foo.org", Number 9); ("b.org", Number 1)]
    | 1%nat => [("b.org", Number 2); ("foo.org", Number 8); ("c.org", Number 5)]
    | _ => []
    end in
  let d1 := {| Dataset.ldfEndpoint := "http://ldf.example.org/d1";
               Dataset.source := "http://foo.org/d1.nt";
               Dataset.triples := 100; Dataset.hostOccurrences := 0%nat |} in
  let d2 := {| Dataset.ldfEndpoint := "http://ldf.example.org/d2";
               Dataset.source := "http://foo.org/d2.nt";
               Dataset.triples := 200; Dataset.hostOccurrences := 1%nat |} in
  let (h1, processedInfo) := processAll h [d1; d2] in
  let (h2, data) := reduce h1 processedInfo in
  Processed.mostOccurringHost <$> processedInfo = [Some "foo.org"; Some "foo.org"] /\
  obj_keys data = ["foo.org"] /\
  (Entry.triples <$> obj_get data "foo.org") = Some 300 /\
  h2 0%nat = [("b.org", Number 3); ("c.org", Number 5)] /\
  h2 1%nat = [("b.org", Number 2); ("c.org", Number 5)].
Proof. vm_compute. done. Qed.

(** * Further properties *)

(** ** Page sampling *)

Section MoreSampling.
Import PageSampler.


Lemma Qceiling_hundredth n : Qceiling (inject_Z n / 100)%Q = (n + 99) / 100.
Proof.
  unfold Qceiling, Qfloor. simpl. change (Z.pos (1 * 100)) with 100. rewrite Z.mul_1_r. Z.div_mod_to_equations. lia.
Qed.

(** X1: the number of pages is the declared size plus 99, divided by 100 and
    rounded down, for every integer size: the pages up to [maxPage] hold all
    the triples, and one page fewer would not. *)
Theorem maxPage_covers (numTriples : Z) :
  maxPage numTriples = (numTriples + 99) / 100 /\
  100 * (maxPage numTriples - 1) < numTriples <= 100 * maxPage numTriples.
Proof. unfold maxPage. rewrite Qceiling_hundredth. Z.div_mod_to_equations. lia. Qed.

Section Spacing.
Variable r : Q.
Hypothesis r_pos : (0 < r)%Q.
Hypothesis r_le : (r <= 1)%Q.

Lemma pageInterval_ge_1 n : 0 < n -> (1 <= pageInterval r n)%Q.
Proof.
  intros Hn. unfold pageInterval.
  pose proof (pagesToSample_pos r r_pos n Hn) as Hp.
  pose proof (pagesToSample_le_maxPage r r_le n Hn) as Hm.
  assert (Hp' : (1 <= inject_Z (pagesToSample r n))%Q) by (rewrite <- (Zle_Qle 1); lia).
  assert (Hm' : (inject_Z (pagesToSample r n) <= inject_Z (maxPage n))%Q)
    by (rewrite <- Zle_Qle; lia).
  apply Qle_shift_div_l; lra.
Qed.

Lemma pageIndex_step n i j :
  0 < n -> (i < j)%nat -> (pageIndex r n i + 1 <= pageIndex r n j)%Q.
Proof.
  intros Hn Hij. pose proof (pageInterval_ge_1 n Hn) as Hq.
  unfold pageIndex. set (q := pageInterval r n) in *.
  assert (Hd : (inject_Z (Z.of_nat i) + 1 <= inject_Z (Z.of_nat j))%Q).
  { rewrite <- (inject_Z_plus _ 1), <- Zle_Qle. lia. }
  nra.
Qed.
End Spacing.

Lemma pageIndices_lookup r n i x :
  pageIndices r n !! i = Some x ->
  x = pageIndex r n i /\ Z.of_nat i < pagesToSample r n.
Proof.
  unfold pageIndices. intros H.
  change (map (pageIndex r n)) with (fmap (M := list) (pageIndex r n)) in H.
  rewrite list_lookup_fmap in H.
  destruct (seq 0 (Z.to_nat (pagesToSample r n)) !! i) as [k|] eqn:Hk; [| done].
  apply lookup_seq in Hk as [-> Hlt]. simpl in H. injection H as <-. split; [done | lia].
Qed.

(** X2: for a positive size and a ratio in (0,1] the first page requested
    is page 1, and a later request of the loop asks for an index at least 1
    above that of every earlier one: no index is asked for twice. *)
Theorem pageIndices_spaced (samplingRatio : Q) (declaredTriples : Z) :
  0 < declaredTriples -> (0 < samplingRatio)%Q -> (samplingRatio <= 1)%Q ->
  let indices := pageIndices samplingRatio declaredTriples in
  (forall x, indices !! 0%nat = Some x -> (x == 1)%Q) /\
  (forall i j x y, indices !! i = Some x -> indices !! j = Some y ->
     (i < j)%nat -> (x + 1 <= y)%Q).
Proof.
  intros Hn Hr0 Hr1. cbv zeta. split.
  - intros x [-> _]%pageIndices_lookup. unfold pageIndex. simpl. ring.
  - intros i j x y [-> _]%pageIndices_lookup [-> _]%pageIndices_lookup Hij.
    by apply pageIndex_step.
Qed.

Lemma pageIndices_spaced_witness :
  let indices := PageSampler.pageIndices (1 # 2) 450 in
  (forall x, indices !! 0%nat = Some x -> (x == 1)%Q) /\
  (forall i j x y, indices !! i = Some x -> indices !! j = Some y ->
     (i < j)%nat -> (x + 1 <= y)%Q).
Proof.
  apply (pageIndices_spaced (1 # 2) 450); [lia | reflexivity | discriminate].
Defined.

Lemma pagesToSample_full n : pagesToSample 1 n = maxPage n.
Proof.
  unfold pagesToSample, maxPage. apply Qceiling_comp. field.
Qed.

(** X3: with a sampling factor of 1 and a positive size every page is
    sampled: [maxPage] requests, the one made in iteration [i] for page
    [i + 1]. *)
Theorem full_ratio_samples_every_page (declaredTriples : Z) :
  0 < declaredTriples ->
  let indices := pageIndices 1 declaredTriples in
  Z.of_nat (length indices) = maxPage declaredTriples /\
  forall i x, indices !! i = Some x -> (x == inject_Z (Z.of_nat i + 1))%Q.
Proof.
  intros Hn. cbv zeta.
  assert (Hp : 1 <= maxPage declaredTriples).
  { rewrite <- pagesToSample_full. apply pagesToSample_pos; [reflexivity | done]. }
  split.
  - unfold pageIndices. rewrite length_map, length_seq, pagesToSample_full. lia.
  - intros i x [-> _]%pageIndices_lookup. unfold pageIndex, pageInterval.
    rewrite pagesToSample_full, inject_Z_plus.
    assert (Hm : (1 <= inject_Z (maxPage declaredTriples))%Q)
      by (rewrite <- (Zle_Qle 1); lia).
    change (inject_Z 1) with 1%Q. field. intros E. rewrite E in Hm. lra.
Qed.

Lemma full_ratio_samples_every_page_witness :
  let indices := PageSampler.pageIndices 1 250 in
  Z.of_nat (length indices) = PageSampler.maxPage 250 /\
  forall i x, indices !! i = Some x -> (x == inject_Z (Z.of_nat i + 1))%Q.
Proof. apply (full_ratio_samples_every_page 250). lia. Defined.

(** X4: for a positive size and a ratio in (0,1], all page indices of a
    run are whole numbers exactly when the number of sampled pages divides
    the number of pages; otherwise a fraction is put behind [?page=]. *)
Theorem pageIndices_integral_iff (samplingRatio : Q) (declaredTriples : Z) :
  0 < declaredTriples -> (0 < samplingRatio)%Q -> (samplingRatio <= 1)%Q ->
  Forall isInteger (pageIndices samplingRatio declaredTriples)
  <-> (pagesToSample samplingRatio declaredTriples | maxPage declaredTriples).
Proof.
  intros Hn Hr0 Hr1.
  pose proof (pagesToSample_pos _ Hr0 _ Hn) as Hp.
  set (p := pagesToSample samplingRatio declaredTriples) in *.
  set (m := maxPage declaredTriples) in *.
  assert (Hp' : (1 <= inject_Z p)%Q) by (rewrite <- (Zle_Qle 1); lia).
  split.
  - intros Hall. destruct (decide (p = 1)) as [-> | Hne]; [apply Z.divide_1_l |].
    assert (Hx : pageIndices samplingRatio declaredTriples !! 1%nat
                 = Some (pageIndex samplingRatio declaredTriples 1)).
    { unfold pageIndices.
      change (map (pageIndex samplingRatio declaredTriples))
        with (fmap (M := list) (pageIndex samplingRatio declaredTriples)).
      rewrite list_lookup_fmap, lookup_seq_lt; [done |]. fold p. lia. }
    rewrite Forall_lookup in Hall. destruct (Hall _ _ Hx) as [z Hz].
    unfold pageIndex, pageInterval in Hz. fold p m in Hz.
    exists (z - 1). apply inject_Z_injective.
    assert (Hz1 : (inject_Z (z - 1) == inject_Z z - 1)%Q).
    { unfold Qminus. change 1%Q with (inject_Z 1).
      by rewrite <- inject_Z_opp, <- inject_Z_plus. }
    rewrite inject_Z_mult, Hz1.
    assert (Hq : (inject_Z m / inject_Z p == inject_Z z - 1)%Q).
    { change (inject_Z (Z.of_nat 1)) with 1%Q in Hz.
      set (q := (inject_Z m / inject_Z p)%Q) in *. lra. }
    rewrite <- Hq. field. intros E. rewrite E in Hp'. lra.
  - intros [q Hq]. apply Forall_lookup. intros i x [-> _]%pageIndices_lookup.
    exists (1 + Z.of_nat i * q). unfold pageIndex, pageInterval. fold p m.
    rewrite Hq, inject_Z_plus, !inject_Z_mult. change (inject_Z 1) with 1%Q.
    field. intros E. rewrite E in Hp'. lra.
Qed.

Lemma pageIndices_integral_iff_witness :
  Forall isInteger (PageSampler.pageIndices (1 # 2) 450)
  <-> (PageSampler.pagesToSample (1 # 2) 450 | PageSampler.maxPage 450).
Proof.
  apply (pageIndices_integral_iff (1 # 2) 450); [lia | reflexivity | discriminate].
Defined.

End MoreSampling.

(** ** Completion of a run *)

Section Completion.
Import Analyse.
Variable isIRI : string -> bool.
Variable host : string -> string.
Local Abbreviation aggregate' := (aggregate isIRI host).

Lemma ends_cons a calls :
  ends (a :: calls)
  = (if decide (err a = None ∧ triple a = None) then S (ends calls) else ends calls).
Proof. unfold ends. rewrite filter_cons. by case_decide. Qed.

Lemma aggregate_settled run calls p s :
  p ≠ Pending -> (aggregate' run calls (p, s)).1 = p.
Proof.
  revert p s. induction calls as [|a calls IH]; intros p s Hp; [done |].
  unfold aggregate in *. cbn [fold_left]. unfold pageCallback at 2.
  destruct (err a) as [e|].
  - rewrite IH; by destruct p.
  - destruct (triple a) as [t|].
    + case_decide; by rewrite IH.
    + case_decide; rewrite IH; by destruct p.
Qed.

Lemma ends_cons_error a calls e : err a = Some e -> ends (a :: calls) = ends calls.
Proof.
  intros He. rewrite ends_cons. case_decide as Hc; [| done].
  destruct Hc as [Hc _]. congruence.
Qed.

Lemma ends_cons_triple a calls t : triple a = Some t -> ends (a :: calls) = ends calls.
Proof.
  intros Ht. rewrite ends_cons. case_decide as Hc; [| done].
  destruct Hc as [_ Hc]. congruence.
Qed.

Lemma ends_cons_end a calls :
  err a = None -> triple a = None -> ends (a :: calls) = S (ends calls).
Proof. intros He Ht. rewrite ends_cons. by rewrite decide_True. Qed.

Lemma aggregate_remaining run calls p s :
  remainingPages (aggregate' run calls (p, s)).2
  = (fun n => n - Z.of_nat (ends calls)) <$> remainingPages s.
Proof.
  revert p s. induction calls as [|a calls IH]; intros p s.
  - change (ends []) with 0%nat. simpl.
    destruct (remainingPages s); simpl; [f_equal; lia | done].
  - unfold aggregate in *. cbn [fold_left]. unfold pageCallback at 2.
    destruct (err a) as [e|] eqn:He.
    + by rewrite IH, (ends_cons_error _ _ e).
    + destruct (triple a) as [t|] eqn:Ht.
      * rewrite (ends_cons_triple _ _ t) by done. case_decide; by rewrite IH.
      * rewrite ends_cons_end by done.
        case_decide; rewrite IH; simpl; destruct (remainingPages s); simpl;
          try done; f_equal; lia.
Qed.

Lemma aggregate_errorfree run calls p s n :
  Forall (fun a => err a = None) calls ->
  remainingPages s = Some n ->
  (aggregate' run calls (p, s)).1
  = if decide (0 < n <= Z.of_nat (ends calls)) then resolve run p else p.
Proof.
  intros Hcalls. revert p s n.
  induction Hcalls as [|a calls Ha _ IH]; intros p s n Hn.
  - change (ends []) with 0%nat. simpl. rewrite decide_False; [done | lia].
  - unfold aggregate in *. cbn [fold_left]. unfold pageCallback at 2. rewrite Ha.
    destruct (triple a) as [t|] eqn:Ht.
    + rewrite (ends_cons_triple _ _ t) by done. case_decide; by apply IH.
    + rewrite ends_cons_end by done. rewrite Hn. simpl.
      case_decide as H0.
      * injection H0 as H0. rewrite (IH _ _ (n - 1)) by done.
        rewrite decide_False by lia. rewrite decide_True by lia. done.
      * rewrite (IH _ _ (n - 1)) by done.
        assert (n ≠ 1) by (intros ->; by apply H0).
        repeat case_decide; try done; lia.
Qed.
End Completion.

(** X6: page callbacks without error, in any order: every end of a page
    stream lowers [remainingPages] by one, and a pending promise is
    fulfilled exactly when as many streams have ended as the positive
    counter said; triples do not move the counter. *)
Theorem pages_completed (isIRI : string -> bool) (host : string -> string)
    (run : nat) (calls : list CbArgs) (urls : Obj Prim) (n : Z) :
  Forall (fun a => err a = None) calls -> 0 < n ->
  let (p, s) := Analyse.aggregate isIRI host run calls
                  (Analyse.Pending,
                   {| Analyse.remainingPages := Some n; Analyse.urls := urls |}) in
  Analyse.remainingPages s = Some (n - Z.of_nat (ends calls)) /\
  p = (if decide (n <= Z.of_nat (ends calls))
       then Analyse.Fulfilled run else Analyse.Pending).
Proof.
  intros Hcalls Hn.
  pose proof (aggregate_remaining isIRI host run calls Analyse.Pending
                {| Analyse.remainingPages := Some n; Analyse.urls := urls |}) as Hr.
  pose proof (aggregate_errorfree isIRI host run calls Analyse.Pending
                {| Analyse.remainingPages := Some n; Analyse.urls := urls |} n
                Hcalls eq_refl) as Hp.
  destruct (Analyse.aggregate _ _ _ _ _) as [p s]. cbn [fst snd] in *.
  split; [done |]. rewrite Hp. repeat case_decide; try done; lia.
Qed.

Lemma pages_completed_witness :
  let calls := [ Sample.data "http://a.org/x" "p" "http://b.org/y"; Sample.ended;
                 Sample.ended ] in
  let (p, s) := Analyse.aggregate Sample.isIRI Sample.host 0 calls
                  (Analyse.Pending,
                   {| Analyse.remainingPages := Some 2; Analyse.urls := [] |}) in
  Analyse.remainingPages s = Some (2 - Z.of_nat (ends calls)) /\
  p = (if decide (2 <= Z.of_nat (ends calls))
       then Analyse.Fulfilled 0 else Analyse.Pending).
Proof.
  apply (pages_completed Sample.isIRI Sample.host 0
           [ Sample.data "http://a.org/x" "p" "http://b.org/y"; Sample.ended;
             Sample.ended ] [] 2); [| lia].
  repeat constructor.
Defined.

(** X7: the first error that a page callback receives rejects the promise
    with that error, whatever arrives afterwards, unless all pages had
    ended before it, in which case the promise stays fulfilled. *)
Theorem first_error_rejects (isIRI : string -> bool) (host : string -> string)
    (run : nat) (before after : list CbArgs) (a : CbArgs) (e : JSError)
    (urls : Obj Prim) (n : Z) :
  Forall (fun a => err a = None) before -> err a = Some e -> 0 < n ->
  fst (Analyse.aggregate isIRI host run (before ++ a :: after)
         (Analyse.Pending,
          {| Analyse.remainingPages := Some n; Analyse.urls := urls |}))
  = if decide (n <= Z.of_nat (ends before))
    then Analyse.Fulfilled run else Analyse.Rejected e.
Proof.
  intros Hb Ha Hn. unfold Analyse.aggregate. rewrite fold_left_app.
  fold (Analyse.aggregate isIRI host run before
          (Analyse.Pending,
           {| Analyse.remainingPages := Some n; Analyse.urls := urls |})).
  pose proof (pages_completed_aux := aggregate_errorfree isIRI host run before
                Analyse.Pending
                {| Analyse.remainingPages := Some n; Analyse.urls := urls |} n
                Hb eq_refl).
  destruct (Analyse.aggregate _ _ _ _ _) as [p s]. cbn [fst] in *.
  cbn [fold_left]. unfold Analyse.pageCallback at 2. rewrite Ha.
  fold (Analyse.aggregate isIRI host run after (Analyse.reject e p, s)).
  rewrite pages_completed_aux.
  repeat case_decide; try lia; simpl; by rewrite aggregate_settled.
Qed.

Lemma first_error_rejects_witness :
  fst (Analyse.aggregate Sample.isIRI Sample.host 0
         ([Sample.ended] ++ Sample2.failure :: [Sample.ended])
         (Analyse.Pending,
          {| Analyse.remainingPages := Some 2; Analyse.urls := [] |}))
  = if decide (2 <= Z.of_nat (ends [Sample.ended]))
    then Analyse.Fulfilled 0 else Analyse.Rejected (Error "socket hang up").
Proof.
  apply (first_error_rejects Sample.isIRI Sample.host 0 [Sample.ended]
           [Sample.ended] Sample2.failure (Error "socket hang up") [] 2);
    [repeat constructor | reflexivity | lia].
Defined.

(** ** What [streamTriples] passes on *)

Section Forwarding.
Import Stream.
Variable parse : string -> list CbArgs.
Variable showNumber : Z -> string.

Lemma delivered_onParsed l : Analyse.delivered (map onParsed l) = Analyse.delivered l.
Proof.
  induction l as [|a l IH]; [done |]. cbn [map]. rewrite !delivered_cons, IH.
  unfold onParsed. by destruct (err a).
Qed.

Lemma ends_onParsed l : ends (map onParsed l) = ends l.
Proof.
  induction l as [|a l IH]; [done |]. cbn [map]. rewrite !ends_cons, IH.
  unfold onParsed. destruct (err a) as [e|]; cbn [err triple];
    repeat case_decide; try done; exfalso; intuition congruence.
Qed.

Lemma onParsed_exclusive l :
  Forall (fun a => err a = None ∨ triple a = None) (map onParsed l).
Proof.
  apply Forall_forall. intros a Ha. apply in_map_iff in Ha as (a0 & <- & _).
  unfold onParsed. destruct (err a0); cbn; auto.
Qed.
End Forwarding.

(** X5: the request callback of [streamTriples] is left by an exception only
    for a status other than 200.  Otherwise no call of the callback carries
    both an error and a triple; a failed request gives one call with the
    error; a response with status 200 gives one call for each call of the
    parser, with the same triples and the same number of end markers. *)
Theorem streamTriples_outcome (parse : string -> list CbArgs)
    (showNumber : Z -> string) (url : string) (r : Stream.HttpResult) :
  match Stream.streamTriples parse showNumber url r with
  | Stream.Uncaught _ =>
      exists statusCode body, r = Stream.HttpResponse statusCode body /\ statusCode <> 200
  | Stream.Called calls =>
      Forall (fun a => err a = None \/ triple a = None) calls /\
      match r with
      | Stream.RequestFailed e => calls = [ {| err := Some e; triple := None |} ]
      | Stream.HttpResponse statusCode body =>
          statusCode = 200 /\
          length calls = length (parse body) /\
          Analyse.delivered calls = Analyse.delivered (parse body) /\
          ends calls = ends (parse body)
      end
  end.
Proof.
  destruct r as [e | statusCode body]; cbn [Stream.streamTriples].
  - split; [| done]. constructor; [by right | constructor].
  - case_decide as Hs.
    + rewrite statusMessage_raises. eauto.
    + split; [apply onParsed_exclusive |].
      split; [by destruct (decide (statusCode = 200)) |].
      by rewrite length_map, delivered_onParsed, ends_onParsed.
Qed.


(** ** The analysis as a whole *)

Section Machine.
Import Analyse.
Variable SAMPLING_FACTOR : Q.
Variable isIRI : string -> bool.
Variable host : string -> string.
Variable literalInt : string -> option Z.
Variable ldfURL : string.

Local Abbreviation run' := (run SAMPLING_FACTOR isIRI host literalInt ldfURL).
Local Abbreviation step' := (step SAMPLING_FACTOR isIRI host literalInt ldfURL).
Local Abbreviation startSampling' := (startSampling SAMPLING_FACTOR literalInt).

Lemma startSampling_promise o st : promise (startSampling' o st) = promise st.
Proof. unfold startSampling. by destruct (literalInt o). Qed.

Lemma pageCallback_settled r a p s :
  p ≠ Pending -> (pageCallback isIRI host r a (p, s)).1 = p.
Proof.
  intros Hp. unfold pageCallback. destruct (err a); [destruct p; simpl; congruence |].
  destruct (triple a); [by case_decide |]. case_decide; destruct p; simpl; congruence.
Qed.

Lemma step_settled st ev :
  promise st ≠ Pending -> promise (step' st ev) = promise st.
Proof.
  intros Hp. destruct ev as [a | request a]; cbn [step].
  - unfold rootCallback.
    destruct (err a); [simpl; destruct (promise st); simpl; congruence |].
    destruct (triple a); [| done].
    destruct (decide _); [apply startSampling_promise | done].
  - destruct (requested st !! request) as [[r idx]|]; [| done].
    destruct (samplings st !! r) as [s|]; [| done].
    pose proof (pageCallback_settled r a (promise st) s Hp) as Hc.
    by destruct (pageCallback isIRI host r a (promise st, s)).
Qed.

Lemma run_settled evs st :
  promise st ≠ Pending -> promise (run' evs st) = promise st.
Proof.
  revert st. induction evs as [|ev evs IH]; intros st Hp; [done |].
  unfold run in *. simpl. rewrite IH; rewrite step_settled; done.
Qed.

(** One run, all of whose requests belong to it. *)
Lemma run_single_sampling evs p s reqs :
  Forall (withoutError ldfURL (length reqs)) evs ->
  Forall (fun q => fst q = 0%nat) reqs ->
  run' evs {| promise := p; samplings := [s]; requested := reqs |}
  = let (p', s') := aggregate isIRI host 0 (pageArgs evs) (p, s) in
    {| promise := p'; samplings := [s']; requested := reqs |}.
Proof.
  intros Hevs Hreqs. revert p s.
  induction Hevs as [|ev evs Hev _ IH]; intros p s; [done |].
  destruct ev as [a | request a].
  { destruct Hev as [He Ht]. unfold run in *. cbn [fold_left step].
    unfold rootCallback. rewrite He.
    unfold pageArgs. cbn [omap list_omap]. fold (pageArgs evs).
    destruct (triple a) as [t|]; [| apply IH].
    rewrite decide_False by (by apply Ht). apply IH. }
  destruct Hev as [Hlt He].
  unfold run in *. cbn [fold_left step]. cbn [requested samplings promise].
  destruct (lookup_lt_is_Some_2 reqs request Hlt) as [[r idx] Hq].
  rewrite Hq. rewrite Forall_lookup in Hreqs. specialize (Hreqs _ _ Hq).
  simpl in Hreqs. subst r. cbn [lookup list_lookup].
  unfold pageArgs. cbn [omap list_omap]. fold (pageArgs evs).
  unfold aggregate. cbn [fold_left].
  destruct (pageCallback isIRI host 0 a (p, s)) as [p1 s1].
  cbn [insert list_insert]. apply IH.
Qed.

Lemma step_withoutNumber st ev :
  withoutNumber literalInt ldfURL ev ->
  promise st = Pending -> requested st = [] ->
  promise (step' st ev) = Pending ∧ requested (step' st ev) = [].
Proof.
  intros Hev Hp Hreq. destruct ev as [a | request a]; cbn [step] in *.
  - destruct Hev as [He Ht]. unfold rootCallback. rewrite He.
    destruct (triple a) as [t|]; [| done].
    destruct (decide _) as [[Hs Hpr] |]; [| done].
    unfold startSampling. by rewrite (Ht t eq_refl Hs Hpr).
  - by rewrite Hreq.
Qed.

Lemma run_withoutNumber evs st :
  Forall (withoutNumber literalInt ldfURL) evs ->
  promise st = Pending -> requested st = [] ->
  promise (run' evs st) = Pending ∧ requested (run' evs st) = [].
Proof.
  intros Hevs. revert st.
  induction Hevs as [|ev evs Hev _ IH]; intros st Hp Hreq; [done |].
  unfold run in *. cbn [fold_left].
  destruct (step_withoutNumber st ev Hev Hp Hreq). by apply IH.
Qed.
End Machine.

Lemma pageArgs_errorfree ldfURL bound evs :
  Forall (withoutError ldfURL bound) evs ->
  Forall (fun a => err a = None) (pageArgs evs).
Proof.
  induction 1 as [|ev evs Hev _ IH]; [constructor |].
  destruct ev as [a | request a]; [done |]. destruct Hev as [_ He].
  unfold pageArgs. cbn [omap list_omap]. by constructor.
Qed.

(** X8: once the promise of [analyseData] is fulfilled or rejected, no
    later callback of the root stream or of a page stream changes it. *)
Theorem settled_promise_is_final
    (SAMPLING_FACTOR : Q) (isIRI : string -> bool) (host : string -> string)
    (literalInt : string -> option Z) (ldfURL : string)
    (evs : list Analyse.Event) (st : Analyse.State) :
  Analyse.promise st <> Analyse.Pending ->
  Analyse.promise (Analyse.run SAMPLING_FACTOR isIRI host literalInt ldfURL evs st)
  = Analyse.promise st.
Proof. apply run_settled. Qed.

Lemma settled_promise_is_final_witness :
  Analyse.promise
    (Analyse.run (1 # 2) Sample.isIRI Sample.host (fun _ => Some 150)
       Sample.endpoint [Analyse.FromPage 0 Sample.ended] Sample2.rejected)
  = Analyse.promise Sample2.rejected.
Proof.
  apply (settled_promise_is_final (1 # 2) Sample.isIRI Sample.host
           (fun _ => Some 150) Sample.endpoint
           [Analyse.FromPage 0 Sample.ended] Sample2.rejected).
  discriminate.
Defined.

(** X9: a metadata triple whose literal [parseInt] turns into [NaN]
    starts no request and settles nothing: as long as the root stream
    reports no error and declares no number, the promise is pending and
    no page is requested. *)
Theorem unparsable_size_samples_nothing
    (SAMPLING_FACTOR : Q) (isIRI : string -> bool) (host : string -> string)
    (literalInt : string -> option Z) (ldfURL : string)
    (evs : list Analyse.Event) :
  Forall (withoutNumber literalInt ldfURL) evs ->
  forall k,
    let st := Analyse.run SAMPLING_FACTOR isIRI host literalInt ldfURL
                (take k evs) Analyse.initial in
    Analyse.promise st = Analyse.Pending /\ Analyse.requested st = [].
Proof.
  intros Hevs k. cbv zeta.
  apply run_withoutNumber; [by apply Forall_take | done..].
Qed.

Lemma unparsable_size_samples_nothing_witness :
  let evs := [ Analyse.FromRoot Sample.size; Analyse.FromRoot Sample.ended ] in
  let st := Analyse.run (1 # 2) Sample.isIRI Sample.host (fun _ => None)
              Sample.endpoint (take 2 evs) Analyse.initial in
  Analyse.promise st = Analyse.Pending /\ Analyse.requested st = [].
Proof.
  cbv zeta.
  apply (unparsable_size_samples_nothing (1 # 2) Sample.isIRI Sample.host
           (fun _ => None) Sample.endpoint
           [ Analyse.FromRoot Sample.size; Analyse.FromRoot Sample.ended ]).
  repeat constructor; simpl; intros t Ht; try discriminate; reflexivity.
Defined.

(** ** Counts per host *)

Lemma bump_bump x v a b : bump x (bump x v a) b = bump x v (a + b).
Proof. unfold bump. by rewrite (Nat.add_comm a b), Nat.iter_add. Qed.

Lemma append_assoc (a b c : string) : (a ++ b) ++ c = a ++ b ++ c.
Proof.
  induction a as [|ch a IH]; [done |].
  change (String ch ((a ++ b) ++ c) = String ch (a ++ b ++ c)). by rewrite IH.
Qed.

Lemma ones_snoc k : ones k ++ "1" = ones (S k).
Proof.
  induction k as [|k IH]; [done |].
  change (String "1" (ones k ++ "1") = String "1" (ones (S k))). by rewrite IH.
Qed.

(** The value of host [x] after [n] occurrences in a map that did not
    have it. *)
Lemma bump_fresh x n :
  bump x None n
  = if decide (n = 0%nat) then None
    else match inheritedText x with
         | None => Some (Number (Z.of_nat n))
         | Some t => if decide (x = "__proto__") then None
                     else Some (Text (t ++ ones n))
         end.
Proof.
  induction n as [|n IH]; [done |].
  rewrite decide_False by done.
  change (bump x None (S n)) with (bumpOnce x (bump x None n)). rewrite IH.
  unfold bumpOnce, operand.
  destruct (decide (n = 0%nat)) as [-> | Hn].
  - destruct (inheritedText x) as [t|] eqn:Ht.
    + destruct (decide (x = "__proto__")) as [-> | Hx].
      * by rewrite decide_True.
      * rewrite decide_False by tauto. reflexivity.
    + rewrite decide_False by (intros [-> _]; discriminate). reflexivity.
  - destruct (inheritedText x) as [t|] eqn:Ht.
    + destruct (decide (x = "__proto__")) as [-> | Hx].
      * by rewrite decide_True.
      * rewrite decide_False by tauto.
        rewrite decide_False.
        -- cbn [plus toText]. change (decimal 1) with "1".
           by rewrite append_assoc, ones_snoc.
        -- apply inheritedText_nonempty in Ht. by destruct t.
    + rewrite decide_False by (intros [_ ?]; done).
      cbn [plus]. do 2 f_equal. lia.
Qed.

Section HostCounts.
Import Analyse.
Variable isIRI : string -> bool.
Variable host : string -> string.
Variable x : string.

Local Abbreviation counted := (countedFor isIRI host x).

Lemma obj_get_countTerm urls elem :
  obj_get (countTerm isIRI host urls elem) x
  = bump x (obj_get urls x) (if decide (counted elem) then 1 else 0).
Proof.
  unfold countTerm, countedFor. destruct (isIRI elem).
  - rewrite obj_get_assign. destruct (decide (host elem = x)) as [Heq | Hne].
    + destruct (decide (true = true ∧ host elem = x)) as [_ | Hn]; [| tauto].
      rewrite Heq. reflexivity.
    + destruct (decide (true = true ∧ host elem = x)) as [[_ ?] | _]; done.
  - destruct (decide (false = true ∧ host elem = x)) as [[? _] | _]; done.
Qed.

Lemma obj_get_countTerms terms urls :
  obj_get (fold_left (countTerm isIRI host) terms urls) x
  = bump x (obj_get urls x) (length (filter counted terms)).
Proof.
  revert urls. induction terms as [|elem terms IH]; intros urls; [done |].
  cbn [fold_left]. rewrite IH, obj_get_countTerm, bump_bump, filter_cons.
  by case_decide.
Qed.

Lemma length_filter_fmap {A B} (f : A -> B) (P : B -> Prop)
    `{!∀ b, Decision (P b)} (l : list A) :
  length (filter P (f <$> l)) = length (filter (fun a => P (f a)) l).
Proof.
  induction l as [|a l IH]; [done |].
  rewrite fmap_cons, !filter_cons. case_decide; simpl; by rewrite IH.
Qed.

Lemma hostPairs_cons t ts :
  length (hostPairs isIRI host x (t :: ts))
  = ((if decide (graph t = "")
      then length (filter counted [subject t; predicate t; object t])
      else 0) + length (hostPairs isIRI host x ts))%nat.
Proof.
  unfold hostPairs, countedPairs. cbn [list_prod].
  rewrite !list.filter_app, length_app. f_equal.
  change [subject t; predicate t; object t]
    with (termAt t <$> [InSubject; InPredicate; InObject]).
  rewrite length_filter_fmap.
  change (map (fun y => (t, y)) [InSubject; InPredicate; InObject])
    with ((fun y => (t, y)) <$> [InSubject; InPredicate; InObject]).
  rewrite list_filter_filter, length_filter_fmap. cbn [fst snd].
  destruct (decide (graph t = "")) as [Hg | Hg].
  - unfold countedFor. f_equal. apply list_filter_iff. intros p. tauto.
  - rewrite !filter_cons, filter_nil.
    repeat case_decide; simpl; try done; exfalso; tauto.
Qed.
End HostCounts.

Section HostCounts2.
Import Analyse.
Variable isIRI : string -> bool.
Variable host : string -> string.

Lemma aggregate_host run calls p s x :
  obj_get (urls (aggregate isIRI host run calls (p, s)).2) x
  = bump x (obj_get (urls s) x)
         (length (hostPairs isIRI host x (delivered calls))).
Proof.
  revert p s. induction calls as [|a calls IH]; intros p s; [done |].
  unfold aggregate in *. cbn [fold_left]. rewrite delivered_cons.
  unfold pageCallback at 2.
  destruct (err a) as [e|]; [by rewrite IH |].
  destruct (triple a) as [t|]; [| case_decide; by rewrite IH].
  rewrite hostPairs_cons. case_decide as Hg.
  - rewrite IH, decide_False by done. done.
  - rewrite IH. cbn [urls]. unfold countTriple.
    rewrite obj_get_countTerms, bump_bump.
    rewrite decide_True by (by destruct (decide (graph t = ""))). done.
Qed.

Lemma aggregate_errorfree_nan run calls p s :
  Forall (fun a => err a = None) calls ->
  remainingPages s = None ->
  (aggregate isIRI host run calls (p, s)).1 = p.
Proof.
  intros Hcalls. revert p s.
  induction Hcalls as [|a calls Ha _ IH]; intros p s Hn; [done |].
  unfold aggregate in *. cbn [fold_left]. unfold pageCallback at 2. rewrite Ha.
  destruct (triple a) as [t|].
  - case_decide; by apply IH.
  - rewrite Hn. cbn. by apply IH.
Qed.

Lemma ends_Permutation calls calls' : calls ≡ₚ calls' -> ends calls = ends calls'.
Proof. intros Hp. unfold ends. by rewrite Hp. Qed.

Lemma hostPairs_Permutation x calls calls' :
  calls ≡ₚ calls' ->
  length (hostPairs isIRI host x (delivered calls))
  = length (hostPairs isIRI host x (delivered calls')).
Proof.
  induction 1 as [| a l l' _ IH | a b l | l1 l2 l3 _ IH1 _ IH2]; [done | | | congruence].
  - rewrite !delivered_cons. destruct (err a), (triple a); try done.
    by rewrite !hostPairs_cons, IH.
  - rewrite !delivered_cons.
    destruct (err a), (triple a), (err b), (triple b); try done.
    rewrite !hostPairs_cons. lia.
Qed.

(** The value of every host in the map of a fresh run. *)
Lemma aggregate_fresh run calls p remaining x :
  obj_get (urls (aggregate isIRI host run calls
                   (p, {| remainingPages := remaining; urls := [] |})).2) x
  = let n := length (hostPairs isIRI host x (delivered calls)) in
    if decide (n = 0%nat) then None
    else match inheritedText x with
         | None => Some (Number (Z.of_nat n))
         | Some t => if decide (x = "__proto__") then None
                     else Some (Text (t ++ ones n))
         end.
Proof. rewrite aggregate_host. cbn [urls obj_get]. apply bump_fresh. Qed.

End HostCounts2.

(** X11: in the host map that the page callbacks of a run fill, the value
    of a host depends on the number [n] of positions of delivered triples
    of the default graph that hold an IRI with that host.  A host without
    such a position is no key.  A host that is no property name of
    [Object.prototype] has the count [n].  A host that is one has the text
    of the inherited value followed by [n] digits [1], except
    [__proto__], which never becomes a key. *)
Theorem host_counts_per_host (isIRI : string -> bool) (host : string -> string)
    (run : nat) (calls : list CbArgs) (p : Analyse.PromiseState)
    (remaining : option Z) (x : string) :
  let fresh := {| Analyse.remainingPages := remaining; Analyse.urls := [] |} in
  let result := Analyse.urls (snd (Analyse.aggregate isIRI host run calls (p, fresh))) in
  let n := length (hostPairs isIRI host x (Analyse.delivered calls)) in
  obj_get result x
  = if decide (n = 0%nat) then None
    else match inheritedText x with
         | None => Some (Number (Z.of_nat n))
         | Some t => if decide (x = "__proto__") then None
                     else Some (Text (t ++ ones n))
         end.
Proof. cbv zeta. apply aggregate_fresh. Qed.

(** X12: the order in which the page callbacks of a run are called does
    not matter for the result: two orders of the same calls give the same
    count for every host and the same [remainingPages], and, when no call
    carries an error, the same state of the promise. *)
Theorem aggregation_order_independent
    (isIRI : string -> bool) (host : string -> string)
    (run : nat) (calls calls' : list CbArgs) (p : Analyse.PromiseState)
    (s : Analyse.Sampling) :
  calls ≡ₚ calls' ->
  let (p1, s1) := Analyse.aggregate isIRI host run calls (p, s) in
  let (p2, s2) := Analyse.aggregate isIRI host run calls' (p, s) in
  (forall x, obj_get (Analyse.urls s1) x = obj_get (Analyse.urls s2) x) /\
  Analyse.remainingPages s1 = Analyse.remainingPages s2 /\
  (Forall (fun a => err a = None) calls -> p1 = p2).
Proof.
  intros Hperm.
  pose proof (fun x => aggregate_host isIRI host run calls p s x) as H1.
  pose proof (fun x => aggregate_host isIRI host run calls' p s x) as H2.
  pose proof (aggregate_remaining isIRI host run calls p s) as R1.
  pose proof (aggregate_remaining isIRI host run calls' p s) as R2.
  pose proof (aggregate_errorfree isIRI host run calls p s) as E1.
  pose proof (aggregate_errorfree isIRI host run calls' p s) as E2.
  pose proof (aggregate_errorfree_nan isIRI host run calls p s) as N1.
  pose proof (aggregate_errorfree_nan isIRI host run calls' p s) as N2.
  destruct (Analyse.aggregate isIRI host run calls (p, s)) as [p1 s1].
  destruct (Analyse.aggregate isIRI host run calls' (p, s)) as [p2 s2].
  cbn [fst snd] in *. split; [| split].
  - intros x. by rewrite H1, H2, (hostPairs_Permutation _ _ _ _ _ Hperm).
  - by rewrite R1, R2, (ends_Permutation _ _ Hperm).
  - intros Hfree.
    assert (Hfree' : Forall (fun a => err a = None) calls') by (by rewrite <- Hperm).
    destruct (Analyse.remainingPages s) as [n|] eqn:Hn.
    + rewrite (E1 n Hfree eq_refl), (E2 n Hfree' eq_refl).
      by rewrite (ends_Permutation _ _ Hperm).
    + by rewrite N1, N2.
Qed.

Lemma aggregation_order_independent_witness :
  let s := {| Analyse.remainingPages := Some 1; Analyse.urls := [] |} in
  let (p1, s1) := Analyse.aggregate Sample.isIRI Sample.host 0
                    [Sample.data "http://a.org/x" "p" "http://b.org/y"; Sample.ended]
                    (Analyse.Pending, s) in
  let (p2, s2) := Analyse.aggregate Sample.isIRI Sample.host 0
                    [Sample.ended; Sample.data "http://a.org/x" "p" "http://b.org/y"]
                    (Analyse.Pending, s) in
  (forall x, obj_get (Analyse.urls s1) x = obj_get (Analyse.urls s2) x) /\
  Analyse.remainingPages s1 = Analyse.remainingPages s2 /\
  (Forall (fun a => err a = None)
          [Sample.data "http://a.org/x" "p" "http://b.org/y"; Sample.ended] -> p1 = p2).
Proof.
  apply (aggregation_order_independent Sample.isIRI Sample.host 0
           [Sample.data "http://a.org/x" "p" "http://b.org/y"; Sample.ended]
           [Sample.ended; Sample.data "http://a.org/x" "p" "http://b.org/y"]).
  apply perm_swap.
Defined.


(** X13: the host map filled by the page callbacks of a run never holds a
    key twice; under a host that is no property name of [Object.prototype]
    it holds a count of at least 1, and under one that is, never
    [__proto__], the text of the inherited value followed by one digit [1]
    or more. *)
Theorem sampled_map_wellformed (isIRI : string -> bool) (host : string -> string)
    (run : nat) (calls : list CbArgs) (p : Analyse.PromiseState)
    (remaining : option Z) :
  let fresh := {| Analyse.remainingPages := remaining; Analyse.urls := [] |} in
  let result := Analyse.urls (snd (Analyse.aggregate isIRI host run calls (p, fresh))) in
  NoDup (obj_keys result) /\
  forall k v, obj_get result k = Some v ->
    match inheritedText k with
    | None => exists n, v = Number n /\ 1 <= n
    | Some t => k <> "__proto__" /\ exists j, v = Text (t ++ ones (S j))
    end.
Proof.
  cbv zeta. split; [apply aggregate_NoDup; constructor |].
  intros k v. rewrite aggregate_fresh. cbv zeta.
  destruct (length _) as [|j]; [done |]. rewrite decide_False by done.
  destruct (inheritedText k) as [t|].
  - case_decide; [done |]. intros [= <-]. eauto.
  - intros [= <-]. eexists. split; [done | lia].
Qed.

(** X10: a call of [analyseData] whose root stream delivers, after
    triples that are not the metadata triple, the metadata triple with a
    positive size requests [pagesToSample] pages.  When the page callbacks
    then run without error, and the root stream goes on without error and
    without a second metadata triple (it ends, at the least), the promise
    is fulfilled with the host map of that run exactly when
    [pagesToSample] page streams have ended, [remainingPages] is what is
    left, and the map holds for every host what the page callbacks, and
    they alone, have made of the occurrences of that host. *)
Theorem analysis_fulfilled_when_pages_end
    (SAMPLING_FACTOR : Q) (isIRI : string -> bool) (host : string -> string)
    (literalInt : string -> option Z) (ldfURL : string)
    (t : Triple) (n : Z) (before evs : list Analyse.Event) :
  subject t = ldfURL -> predicate t = Analyse.voidTriples ->
  literalInt (object t) = Some n -> 0 < n -> (0 < SAMPLING_FACTOR)%Q ->
  let pages := PageSampler.pagesToSample SAMPLING_FACTOR n in
  Forall (Analyse.silent ldfURL) before ->
  Forall (withoutError ldfURL (Z.to_nat pages)) evs ->
  let st := Analyse.run SAMPLING_FACTOR isIRI host literalInt ldfURL
              (before ++ Analyse.FromRoot {| err := None; triple := Some t |} :: evs)
              Analyse.initial in
  Z.of_nat (length (Analyse.requested st)) = pages /\
  Analyse.promise st
  = (if decide (pages <= Z.of_nat (ends (pageArgs evs)))
     then Analyse.Fulfilled 0 else Analyse.Pending) /\
  exists s, Analyse.samplings st = [s] /\
    Analyse.remainingPages s = Some (pages - Z.of_nat (ends (pageArgs evs))) /\
    Analyse.fulfilledWith st
    = (if decide (pages <= Z.of_nat (ends (pageArgs evs)))
       then Some (Analyse.urls s) else None) /\
    forall x,
      let k := length (hostPairs isIRI host x (Analyse.delivered (pageArgs evs))) in
      obj_get (Analyse.urls s) x
      = if decide (k = 0%nat) then None
        else match inheritedText x with
             | None => Some (Number (Z.of_nat k))
             | Some inherited =>
                 if decide (x = "__proto__") then None
                 else Some (Text (inherited ++ ones k))
             end.
Proof.
  intros Hs Hp Hl Hn Hr. cbv zeta. intros Hbefore Hevs.
  pose proof (pagesToSample_pos _ Hr _ Hn) as Hpos.
  unfold Analyse.run. rewrite fold_left_app.
  fold (Analyse.run SAMPLING_FACTOR isIRI host literalInt ldfURL before
          Analyse.initial).
  rewrite run_silent by done.
  cbn [fold_left Analyse.step]. unfold Analyse.rootCallback.
  cbn [err triple]. rewrite decide_True by done.
  unfold Analyse.startSampling. rewrite Hl.
  cbn [Analyse.samplings Analyse.requested Analyse.promise Analyse.initial app length].
  fold (Analyse.run SAMPLING_FACTOR isIRI host literalInt ldfURL evs
          {| Analyse.promise := Analyse.Pending;
             Analyse.samplings :=
               [ {| Analyse.remainingPages := Some (PageSampler.pagesToSample SAMPLING_FACTOR n);
                    Analyse.urls := [] |} ];
             Analyse.requested :=
               map (pair 0%nat) (PageSampler.pageIndices SAMPLING_FACTOR n) |}).
  assert (Hlen : length (map (pair 0%nat) (PageSampler.pageIndices SAMPLING_FACTOR n))
                 = Z.to_nat (PageSampler.pagesToSample SAMPLING_FACTOR n)).
  { unfold PageSampler.pageIndices. by rewrite !length_map, length_seq. }
  rewrite run_single_sampling.
  - pose proof (aggregate_remaining isIRI host 0 (pageArgs evs) Analyse.Pending
                  {| Analyse.remainingPages := Some (PageSampler.pagesToSample SAMPLING_FACTOR n);
                     Analyse.urls := [] |}) as Hrem.
    pose proof (aggregate_errorfree isIRI host 0 (pageArgs evs) Analyse.Pending
                  {| Analyse.remainingPages := Some (PageSampler.pagesToSample SAMPLING_FACTOR n);
                     Analyse.urls := [] |} _
                  (pageArgs_errorfree _ _ _ Hevs) eq_refl) as Hpr.
    pose proof (fun x =>
                  aggregate_fresh isIRI host 0 (pageArgs evs) Analyse.Pending
                    (Some (PageSampler.pagesToSample SAMPLING_FACTOR n)) x) as Hhost.
    destruct (Analyse.aggregate _ _ _ _ _) as [p s]. cbn [fst snd] in *.
    unfold Analyse.fulfilledWith.
    cbn [Analyse.samplings Analyse.requested Analyse.promise Analyse.urls
         Analyse.remainingPages] in *.
    split; [rewrite Hlen; lia |]. split.
    + rewrite Hpr. repeat case_decide; try done; lia.
    + exists s. split; [done |]. split; [done |]. split; [| done].
      rewrite Hpr. repeat case_decide; try done; lia.
  - by rewrite Hlen.
  - apply Forall_forall. intros q Hq. apply in_map_iff in Hq as (x & <- & _). done.
Qed.

Lemma analysis_fulfilled_when_pages_end_witness :
  let t := {| subject := Sample.endpoint; predicate := Analyse.voidTriples;
              object := "150"; graph := "" |} in
  let before := [ Analyse.FromRoot (Sample.control Sample.endpoint "p" "o") ] in
  let evs := [ Analyse.FromPage 0 (Sample.data "http://a.org/x" "p" "http://b.org/y");
               Analyse.FromRoot Sample.ended;
               Analyse.FromPage 0 Sample.ended ] in
  let pages := PageSampler.pagesToSample (1 # 2) 150 in
  let st := Analyse.run (1 # 2) Sample.isIRI Sample.host (fun _ => Some 150)
              Sample.endpoint
              (before ++ Analyse.FromRoot {| err := None; triple := Some t |} :: evs)
              Analyse.initial in
  Z.of_nat (length (Analyse.requested st)) = pages /\
  Analyse.promise st
  = (if decide (pages <= Z.of_nat (ends (pageArgs evs)))
     then Analyse.Fulfilled 0 else Analyse.Pending) /\
  exists s, Analyse.samplings st = [s] /\
    Analyse.remainingPages s = Some (pages - Z.of_nat (ends (pageArgs evs))) /\
    Analyse.fulfilledWith st
    = (if decide (pages <= Z.of_nat (ends (pageArgs evs)))
       then Some (Analyse.urls s) else None) /\
    forall x,
      let k := length (hostPairs Sample.isIRI Sample.host x
                         (Analyse.delivered (pageArgs evs))) in
      obj_get (Analyse.urls s) x
      = if decide (k = 0%nat) then None
        else match inheritedText x with
             | None => Some (Number (Z.of_nat k))
             | Some inherited =>
                 if decide (x = "__proto__") then None
                 else Some (Text (inherited ++ ones k))
             end.
Proof.
  cbv zeta.
  apply (analysis_fulfilled_when_pages_end (1 # 2) Sample.isIRI Sample.host
           (fun _ => Some 150) Sample.endpoint
           {| subject := Sample.endpoint; predicate := Analyse.voidTriples;
              object := "150"; graph := "" |} 150);
    [reflexivity | reflexivity | reflexivity | lia | reflexivity | |].
  - repeat constructor. intros t [= <-] [_ Hp]. discriminate.
  - repeat constructor; try (vm_compute; lia); intros t Ht; discriminate.
Defined.

(** X24: when no sampled host is a property name of [Object.prototype],
    the counts of the host map that the page callbacks of a run fill add
    up to the number of pairs of a delivered triple of the default graph
    and a position among subject, predicate and object that holds an IRI;
    in general they add up to the number of those pairs whose host is no
    such name. *)
Theorem own_host_counts_total (isIRI : string -> bool) (host : string -> string)
    (run : nat) (calls : list CbArgs) (p : Analyse.PromiseState)
    (remaining : option Z) :
  let fresh := {| Analyse.remainingPages := remaining; Analyse.urls := [] |} in
  let result := Analyse.urls (snd (Analyse.aggregate isIRI host run calls (p, fresh))) in
  let pairs := Analyse.countedPairs isIRI (Analyse.delivered calls) in
  total result = Z.of_nat (length (Analyse.ownPairs isIRI host (Analyse.delivered calls))) /\
  ((forall tp, tp ∈ pairs ->
      inheritedText (host (Analyse.termAt (fst tp) (snd tp))) = None) ->
   total result = Z.of_nat (length pairs)).
Proof.
  cbv zeta. rewrite aggregate_total by apply written_nil.
  cbn [Analyse.urls]. split; [done |].
  intros Hown. unfold Analyse.ownPairs.
  replace (filter _ _) with (Analyse.countedPairs isIRI (Analyse.delivered calls));
    [done |].
  induction (Analyse.countedPairs isIRI (Analyse.delivered calls)) as [|tp l IH];
    [done |].
  rewrite filter_cons, decide_True by (apply Hown; left).
  f_equal. apply IH. intros tp' Htp'. apply Hown. by right.
Qed.

Lemma own_host_counts_total_witness :
  let calls :=
    [ Sample.data "http://a.org/x" "http://a.org/p" "http://b.org/y"; Sample.ended ] in
  let fresh := {| Analyse.remainingPages := Some 1; Analyse.urls := [] |} in
  let result :=
    Analyse.urls (snd (Analyse.aggregate Sample.isIRI Sample.host 0 calls
                         (Analyse.Pending, fresh))) in
  total result = 3.
Proof.
  cbv zeta.
  refine (eq_trans
            (proj2 (own_host_counts_total Sample.isIRI Sample.host 0
                      [ Sample.data "http://a.org/x" "http://a.org/p" "http://b.org/y";
                        Sample.ended ]
                      Analyse.Pending (Some 1)) _) _); [| reflexivity].
  intros tp Htp. vm_compute in Htp.
  repeat (apply elem_of_cons in Htp as [-> | Htp]); [reflexivity.. |].
  by apply elem_of_nil in Htp.
Defined.

(** ** [process] and [processAll] *)

Lemma total_delete (o : Obj Prim) key :
  NoDup (obj_keys o) ->
  total (obj_delete o key) = total o - from_option countOf 0 (obj_get o key).
Proof.
  unfold obj_delete. induction o as [|[k n] o IH]; [done |].
  cbn [obj_keys map fst]. intros [Hk Hnd]%list.NoDup_cons.
  rewrite filter_cons. cbn [fst obj_get].
  destruct (decide (k = key)) as [-> | Hne].
  - rewrite decide_False by (intros H; by apply H).
    rewrite total_cons. fold (obj_delete o key).
    rewrite obj_delete_absent by done. simpl. lia.
  - rewrite decide_True by done. rewrite !total_cons, IH by done. lia.
Qed.

(** X14: [process] returns [null] as [mostOccurringHost] exactly when no
    host of the map has a count above 0. *)
Theorem nothing_selected_iff (h : nat -> Obj Prim) (datasetInfo : Dataset.t) :
  Processed.mostOccurringHost (snd (process h datasetInfo)) = None
  <-> forall k n,
        obj_get (h (Dataset.hostOccurrences datasetInfo)) k = Some (Number n) -> n <= 0.
Proof.
  unfold process, selectDominant. cbn [snd Processed.mostOccurringHost].
  set (m := h (Dataset.hostOccurrences datasetInfo)).
  destruct (scan_spec m (obj_keys m) None 0)
    as [[-> Hle] | (before & k & after & n & Hks & -> & Hk & Hlt & Hb & Ha)].
  - split; [| done]. intros _ k n Hg. eapply Hle; [| done].
    by eapply obj_get_Some_keys.
  - split; [done |]. intros Hall. apply Hall in Hk. lia.
Qed.

(** X15: on a host map with a count above 0, [process] takes out the
    selected host only: the counts of [referencedHosts] add up to those of
    [hostOccurrences] less the count of the selected host, its keys stay
    unique, and no host map of another dataset is touched. *)
Theorem process_keeps_other_counts (h : nat -> Obj Prim) (datasetInfo : Dataset.t) :
  let hostOccurrences := h (Dataset.hostOccurrences datasetInfo) in
  NoDup (obj_keys hostOccurrences) ->
  (exists k n, obj_get hostOccurrences k = Some (Number n) /\ 0 < n) ->
  let (h', p) := process h datasetInfo in
  total (h' (Processed.referencedHosts p))
  = total hostOccurrences - snd (selectDominant hostOccurrences) /\
  NoDup (obj_keys (h' (Processed.referencedHosts p))) /\
  forall l, l <> Dataset.hostOccurrences datasetInfo -> h' l = h l.
Proof.
  cbv zeta. intros Hnd (k1 & n1 & Hk1 & Hn1). unfold process, selectDominant.
  set (m := h (Dataset.hostOccurrences datasetInfo)) in *.
  destruct (scan_spec m (obj_keys m) None 0)
    as [[_ Hle] | (before & k & after & n & Hks & -> & Hk & Hlt & Hb & Ha)].
  - apply Hle in Hk1; [lia | by eapply obj_get_Some_keys].
  - cbn [fst snd Processed.referencedHosts toPropertyKey].
    rewrite fn_lookup_insert. split; [| split].
    + rewrite total_delete, Hk by done. done.
    + by apply obj_delete_NoDup.
    + intros l Hl. by rewrite fn_lookup_insert_ne.
Qed.

Lemma process_keeps_other_counts_witness :
  let hostOccurrences := Sample.heap 1 in
  let (h', p) := process Sample.heap (Sample.dataset 1) in
  total (h' (Processed.referencedHosts p))
  = total hostOccurrences - snd (selectDominant hostOccurrences) /\
  NoDup (obj_keys (h' (Processed.referencedHosts p))) /\
  forall l, l <> Dataset.hostOccurrences (Sample.dataset 1) -> h' l = Sample.heap l.
Proof.
  apply (process_keeps_other_counts Sample.heap (Sample.dataset 1)).
  - apply (bool_decide_unpack _). reflexivity.
  - exists "c.org", 5. split; [reflexivity | lia].
Defined.


Local Abbreviation loc_of := Dataset.hostOccurrences.

(** *** [processAll] *)

Lemma processAll_snoc h ds d :
  processAll h (ds ++ [d])
  = let (h1, ps) := processAll h ds in
    let (h2, p) := process h1 d in (h2, (ps ++ [p])%list).
Proof.
  unfold processAll. rewrite fold_left_app. cbn [fold_left].
  by destruct (fold_left _ ds (h, [])) as [h1 ps].
Qed.

Lemma process_local h1 h2 d :
  h1 (loc_of d) = h2 (loc_of d) ->
  (process h1 d).2 = (process h2 d).2 ∧
  (process h1 d).1 (loc_of d) = (process h2 d).1 (loc_of d).
Proof.
  intros Heq. unfold process. cbn [fst snd]. rewrite !fn_lookup_insert, Heq. done.
Qed.

Lemma processAll_spec h ds :
  NoDup (loc_of <$> ds) ->
  (processAll h ds).2 = (fun d => (process h d).2) <$> ds ∧
  (∀ d, d ∈ ds -> (processAll h ds).1 (loc_of d) = (process h d).1 (loc_of d)) ∧
  (∀ l, l ∉ loc_of <$> ds -> (processAll h ds).1 l = h l).
Proof.
  induction ds as [|d ds IH] using rev_ind; intros Hnd.
  - split; [done |]. split; [| done]. intros d Hd. by apply elem_of_nil in Hd.
  - rewrite fmap_app in Hnd. apply list.NoDup_app in Hnd as (Hnd & Hfresh & _).
    assert (Hd : loc_of d ∉ loc_of <$> ds).
    { intros Hin. apply (Hfresh _ Hin). left. }
    destruct (IH Hnd) as (IHp & IHh & IHf). clear IH.
    rewrite processAll_snoc. destruct (processAll h ds) as [h1 ps].
    cbn [fst snd] in *.
    destruct (process_local h1 h d (IHf _ Hd)) as [Hp Hh].
    destruct (process h1 d) as [h2 p] eqn:Hpr. cbn [fst snd] in *.
    assert (Hh2 : ∀ l, l ≠ loc_of d -> h2 l = h1 l).
    { intros l Hl. unfold process in Hpr. injection Hpr as <- _.
      by rewrite fn_lookup_insert_ne. }
    split; [| split].
    + by rewrite fmap_app, IHp, Hp.
    + intros d' [Hd' | ->%list_elem_of_singleton]%elem_of_app; [| done].
      rewrite Hh2; [by apply IHh |].
      intros Heq. apply Hd. rewrite <- Heq. by apply list_elem_of_fmap_2.
    + intros l Hl. rewrite fmap_app in Hl. apply not_elem_of_app in Hl as [Hl Hl'].
      rewrite Hh2; [by apply IHf |]. intros ->. apply Hl'. left.
Qed.

(** *** The accumulator of the merge *)

Lemma reduce_keys_NoDup h l : NoDup (obj_keys (reduce h l).2).
Proof.
  induction l as [|d l IH] using rev_ind; [constructor |].
  rewrite reduce_snoc. destruct (reduce h l) as [h' acc]. unfold merge.
  cbn [snd] in *. destruct (obj_get acc _); cbn [snd]; by apply obj_set_NoDup.
Qed.

Lemma group_nil_iff k l : group k l = [] <-> ∀ d, d ∈ l -> keyOf d ≠ k.
Proof.
  unfold group. split.
  - intros Hg d Hd Hk. assert (Hin : d ∈ filter (fun d => keyOf d = k) l)
      by (by apply list_elem_of_filter).
    rewrite Hg in Hin. by apply elem_of_nil in Hin.
  - intros Hall. destruct (filter _ l) as [|d0 rest] eqn:Hg; [done |].
    assert (Hin : d0 ∈ filter (fun d => keyOf d = k) l) by (rewrite Hg; left).
    apply list_elem_of_filter in Hin as [Hk Hin]. by apply Hall in Hin.
Qed.

(** X17: the output of the merge has one entry for each dominant host: no
    key twice, and a key is in it exactly when some processed dataset is
    filed under it. *)
Theorem merged_keys (h : nat -> Obj Prim) (l : list Processed.t) :
  let acc := snd (reduce h l) in
  NoDup (obj_keys acc) /\
  forall k, k ∈ obj_keys acc <-> exists d, d ∈ l /\ keyOf d = k.
Proof.
  cbv zeta. split; [apply reduce_keys_NoDup |]. intros k.
  pose proof (reduce_shape h l k) as Hs.
  destruct (group k l) as [|d0 rest] eqn:Hg.
  - apply obj_get_None_keys in Hs. split; [done |].
    intros (d & Hd & Hk). exfalso. by eapply (proj1 (group_nil_iff k l)).
  - destruct Hs as (e & He & _). split.
    + intros _. exists d0. by eapply group_elem.
    + intros _. by eapply obj_get_Some_keys.
Qed.

Lemma sumZ_obj_set {V} (f : V -> Z) (o : Obj V) key v :
  sumZ ((fun kv => f kv.2) <$> obj_set o key v)
  = sumZ ((fun kv => f kv.2) <$> o) - from_option f 0 (obj_get o key) + f v.
Proof.
  induction o as [|[k w] o IH]; cbn [obj_set obj_get].
  - cbn. lia.
  - destruct (decide (k = key)); rewrite !fmap_cons, !sumZ_cons; cbn [snd from_option];
      [| rewrite IH]; lia.
Qed.

(** X18: the merge loses and invents nothing: the [triples] of all entries
    add up to the [numTriples] of all processed datasets, and the
    provenance lists together hold as many records as there are datasets. *)
Theorem merge_conserves_triples (h : nat -> Obj Prim) (l : list Processed.t) :
  let acc := snd (reduce h l) in
  sumZ ((fun kv => Entry.triples (snd kv)) <$> acc) = sumZ (declared <$> l) /\
  sumZ ((fun kv => Z.of_nat (length (Entry.provenance (snd kv)))) <$> acc)
  = Z.of_nat (length l).
Proof.
  cbv zeta. induction l as [|d l [IH1 IH2]] using rev_ind; [done |].
  rewrite reduce_snoc. destruct (reduce h l) as [h' acc]. unfold merge.
  cbn [snd] in *. rewrite fmap_app, sumZ_app, length_app.
  destruct (obj_get acc _) as [e|] eqn:He; cbn [snd]; split.
  - rewrite (sumZ_obj_set Entry.triples), He, IH1. cbn. unfold declared. lia.
  - rewrite (sumZ_obj_set (fun e => Z.of_nat (length (Entry.provenance e)))), He, IH2.
    cbn. rewrite length_app. cbn. lia.
  - rewrite (sumZ_obj_set Entry.triples), He, IH1. cbn. unfold declared. lia.
  - rewrite (sumZ_obj_set (fun e => Z.of_nat (length (Entry.provenance e)))), He, IH2.
    cbn. lia.
Qed.

Lemma omap_id_fmap {A B} (f : A -> option B) (l : list A) :
  omap id (f <$> l) = omap f l.
Proof.
  induction l as [|a l IH]; [done |].
  rewrite fmap_cons. cbn [omap list_omap]. unfold id at 1.
  destruct (f a); by rewrite IH.
Qed.

(** X19: for processed datasets with distinct host maps, and for a host
    that is no property name of [Object.prototype] and has numbers as its
    values, the merged [referencedHosts] of an entry gives the host the sum
    of its counts in the host maps of the datasets filed under the entry's
    key, and has no key for it when none of them has. *)
Theorem merged_counts_are_sums (h : nat -> Obj Prim) (l : list Processed.t)
    (k : string) (e : Entry.t) (x : string) :
  NoDup (Processed.referencedHosts <$> l) ->
  (forall d, d ∈ l -> NoDup (obj_keys (h (Processed.referencedHosts d)))) ->
  obj_get (snd (reduce h l)) k = Some e ->
  inheritedText x = None ->
  (forall d v, d ∈ group k l ->
     obj_get (h (Processed.referencedHosts d)) x = Some v -> exists n, v = Number n) ->
  let present :=
    omap (fun d => match obj_get (h (Processed.referencedHosts d)) x with
                   | Some (Number n) => Some n
                   | _ => None
                   end) (group k l) in
  obj_get (fst (reduce h l) (Entry.referencedHosts e)) x
  = if decide (present = []) then None else Some (Number (sumZ present)).
Proof.
  intros Hnd Hwf He Hx Hnum. cbv zeta.
  rewrite (reduce_counts h l Hnd Hwf k e x He).
  set (numberAt := fun d => match obj_get (h (rh d)) x with
                            | Some (Number n) => Some n
                            | _ => None
                            end).
  assert (Hc : counts h x (group k l)
               = fmap (M:=list) (fmap (M:=option) Number) (numberAt <$> group k l)).
  { unfold counts. rewrite <- list_fmap_compose. apply list_fmap_ext.
    intros i d Hd. cbn. unfold numberAt.
    destruct (obj_get (h (rh d)) x) as [v|] eqn:Hv; [| done].
    destruct (Hnum d v (list_elem_of_lookup_2 _ _ _ Hd) Hv) as (n & ->). done. }
  rewrite Hc, merged_numbers by done.
  rewrite omap_id_fmap. destruct (omap numberAt (group k l)) as [|n ns]; [done |].
  by rewrite decide_False.
Qed.

Lemma merged_counts_are_sums_witness :
  let l := [Sample.first; Sample.second] in
  let e := {| Entry.triples := 300;
              Entry.provenance := [Processed.provenance Sample.first;
                                   Processed.provenance Sample.second];
              Entry.referencedHosts := 0%nat |} in
  let present :=
    omap (fun d => match obj_get (Sample.heap (Processed.referencedHosts d)) "b.org" with
                   | Some (Number n) => Some n
                   | _ => None
                   end) (group "foo.org" l) in
  obj_get (fst (reduce Sample.heap l) (Entry.referencedHosts e)) "b.org"
  = if decide (present = []) then None else Some (Number (sumZ present)).
Proof.
  cbv zeta.
  apply (merged_counts_are_sums Sample.heap [Sample.first; Sample.second] "foo.org").
  - apply (bool_decide_unpack _). reflexivity.
  - intros d Hd. repeat (apply elem_of_cons in Hd as [-> | Hd]);
      [apply (bool_decide_unpack _); reflexivity.. | by apply elem_of_nil in Hd].
  - reflexivity.
  - reflexivity.
  - intros d v Hd. vm_compute in Hd.
    repeat (apply elem_of_cons in Hd as [-> | Hd]);
      [intros [= <-]; eauto.. | by apply elem_of_nil in Hd].
Defined.

(** X25: processed datasets whose host maps are distinct objects that
    hold numbers under names that [Object.prototype] does not have, merged
    in either of two orders that are permutations of each other, give for
    every key of the output the same [triples] and the same counts in
    [referencedHosts] (the same value, or none, for every host); the two
    provenance lists hold the same records, each in the order of its own
    input; and a key is in one output exactly when it is in the other. *)
Theorem plain_merge_order_independent (h : nat -> Obj Prim) (l l' : list Processed.t) :
  l ≡ₚ l' ->
  NoDup (Processed.referencedHosts <$> l) ->
  (forall d, d ∈ l -> NoDup (obj_keys (h (Processed.referencedHosts d)))) ->
  (forall d, d ∈ l -> plain (h (Processed.referencedHosts d))) ->
  let (h1, acc1) := reduce h l in
  let (h2, acc2) := reduce h l' in
  forall k,
    match obj_get acc1 k, obj_get acc2 k with
    | Some e1, Some e2 =>
        Entry.triples e1 = Entry.triples e2 /\
        (forall x, obj_get (h1 (Entry.referencedHosts e1)) x
                   = obj_get (h2 (Entry.referencedHosts e2)) x) /\
        Entry.provenance e1 ≡ₚ Entry.provenance e2 /\
        Entry.provenance e1 = Processed.provenance <$> group k l /\
        Entry.provenance e2 = Processed.provenance <$> group k l'
    | None, None => True
    | _, _ => False
    end.
Proof.
  intros Hperm Hnd Hwf Hplain.
  assert (Hnd' : NoDup (rh <$> l')) by (by rewrite <- Hperm).
  assert (Hwf' : ∀ d, d ∈ l' -> NoDup (obj_keys (h (rh d)))).
  { intros d Hd. apply Hwf. by rewrite Hperm. }
  pose proof (reduce_counts h l Hnd Hwf) as Hc.
  pose proof (reduce_counts h l' Hnd' Hwf') as Hc'.
  pose proof (reduce_shape h l) as Hs. pose proof (reduce_shape h l') as Hs'.
  destruct (reduce h l) as [h1 acc1], (reduce h l') as [h2 acc2].
  cbn [fst snd] in *. intros k.
  specialize (Hs k). specialize (Hs' k).
  assert (Hg : group k l ≡ₚ group k l') by (unfold group; by rewrite Hperm).
  assert (Hgp : ∀ d, d ∈ group k l -> plain (h (rh d))).
  { intros d [_ Hd]%list_elem_of_filter. by apply Hplain. }
  destruct (group k l) as [|d0 rest] eqn:Hgl, (group k l') as [|d0' rest'] eqn:Hgl'.
  - by rewrite Hs, Hs'.
  - by apply Permutation_nil_cons in Hg.
  - symmetry in Hg. by apply Permutation_nil_cons in Hg.
  - destruct Hs as (e1 & He1 & Ht1 & Hp1 & _), Hs' as (e2 & He2 & Ht2 & Hp2 & _).
    rewrite He1, He2. repeat split; [| | | done | done].
    + rewrite Ht1, Ht2. apply sumZ_Permutation. by rewrite Hg.
    + intros x. rewrite (Hc _ _ x He1), (Hc' _ _ x He2), Hgl, Hgl'.
      by apply merged_plain_Permutation.
    + rewrite Hp1, Hp2. by rewrite Hg.
Qed.

Lemma plain_merge_order_independent_witness :
  let (h1, acc1) := reduce Sample.heap [Sample.first; Sample.second; Sample.third] in
  let (h2, acc2) := reduce Sample.heap [Sample.second; Sample.first; Sample.third] in
  forall k,
    match obj_get acc1 k, obj_get acc2 k with
    | Some e1, Some e2 =>
        Entry.triples e1 = Entry.triples e2 /\
        (forall x, obj_get (h1 (Entry.referencedHosts e1)) x
                   = obj_get (h2 (Entry.referencedHosts e2)) x) /\
        Entry.provenance e1 ≡ₚ Entry.provenance e2 /\
        Entry.provenance e1
        = Processed.provenance
            <$> group k [Sample.first; Sample.second; Sample.third] /\
        Entry.provenance e2
        = Processed.provenance
            <$> group k [Sample.second; Sample.first; Sample.third]
    | None, None => True
    | _, _ => False
    end.
Proof.
  apply (plain_merge_order_independent Sample.heap
           [Sample.first; Sample.second; Sample.third]
           [Sample.second; Sample.first; Sample.third]).
  - apply perm_swap.
  - apply (bool_decide_unpack _). reflexivity.
  - intros d Hd. repeat (apply elem_of_cons in Hd as [-> | Hd]);
      [apply (bool_decide_unpack _); reflexivity.. | by apply elem_of_nil in Hd].
  - intros d Hd. repeat (apply elem_of_cons in Hd as [-> | Hd]);
      [| | | by apply elem_of_nil in Hd];
      intros k v; cbn [Sample.heap obj_get Processed.referencedHosts
                       Sample.first Sample.second Sample.third];
      repeat case_decide; intros [= <-]; subst; (split; [reflexivity | eauto]).
Defined.

(** X20: a dataset without dominant host ([null]) and a dataset whose
    dominant host is the string [null] are filed under the same key and
    merged into one entry. *)
Theorem null_host_shares_entry (h : nat -> Obj Prim) (d1 d2 : Processed.t) :
  Processed.mostOccurringHost d1 = None ->
  Processed.mostOccurringHost d2 = Some "null" ->
  snd (reduce h [d1; d2])
  = [("null",
      {| Entry.triples := declared d1 + declared d2;
         Entry.provenance := [Processed.provenance d1; Processed.provenance d2];
         Entry.referencedHosts := Processed.referencedHosts d1 |})].
Proof.
  intros H1 H2. unfold reduce. cbn [fold_left]. unfold merge at 2.
  rewrite H1. cbn [toPropertyKey obj_get obj_set].
  unfold merge. rewrite H2. cbn [toPropertyKey obj_get].
  rewrite decide_True by done. cbn [snd obj_set]. by rewrite decide_True.
Qed.

Lemma null_host_shares_entry_witness :
  snd (reduce Sample.heap [Sample2.nameless; Sample2.named])
  = [("null",
      {| Entry.triples := declared Sample2.nameless + declared Sample2.named;
         Entry.provenance := [Processed.provenance Sample2.nameless;
                              Processed.provenance Sample2.named];
         Entry.referencedHosts := Processed.referencedHosts Sample2.nameless |})].
Proof.
  apply (null_host_shares_entry Sample.heap Sample2.nameless Sample2.named);
    reflexivity.
Defined.

Lemma fold_addCount_total from target ks h :
  from ≠ target -> plain (h from) -> written (h target) ->
  total (fold_left (addCount from target) ks h target)
  = total (h target)
    + sumZ ((fun k => from_option countOf 0 (obj_get (h from) k)) <$> ks).
Proof.
  intros Hne. revert h. induction ks as [|k ks IH]; intros h Hp Hw.
  - cbn [fold_left]. rewrite fmap_nil. change (sumZ []) with 0. lia.
  - cbn [fold_left].
    assert (Hfrom : addCount from target h k from = h from)
      by (by apply addCount_frame).
    assert (Hstep : written (addCount from target h k target) ∧
              total (addCount from target h k target)
              = total (h target) + from_option countOf 0 (obj_get (h from) k)).
    { unfold addCount. destruct (obj_get (h from) k) as [v|] eqn:Hv.
      - destruct (Hp k v Hv) as (Hk & n & ->).
        rewrite fn_lookup_insert. unfold assign.
        rewrite decide_False by (intros [-> _]; discriminate).
        assert (Hsum : plus (orZero (h target) k) (Number n)
                       = Number (from_option countOf 0 (obj_get (h target) k) + n)).
        { unfold orZero, operand. pose proof (Hw k) as Hwk. rewrite Hk in Hwk.
          destruct (obj_get (h target) k) as [w|].
          - by destruct (Hwk w eq_refl) as (m & ->).
          - by rewrite Hk. }
        rewrite Hsum. split.
        + apply written_set; [done |]. rewrite Hk. eauto.
        + rewrite total_set. cbn. lia.
      - cbn. split; [done | lia]. }
    destruct Hstep as [Hw' Ht].
    rewrite IH by (by rewrite ?Hfrom).
    rewrite Hfrom, Ht, fmap_cons, sumZ_cons. lia.
Qed.

Lemma total_keys (o : Obj Prim) :
  NoDup (obj_keys o) ->
  sumZ ((fun k => from_option countOf 0 (obj_get o k)) <$> obj_keys o) = total o.
Proof.
  induction o as [|[k n] o IH]; [done |].
  cbn [obj_keys map fst]. intros [Hk Hnd]%list.NoDup_cons.
  rewrite fmap_cons, sumZ_cons. cbn [obj_get]. rewrite decide_True by done.
  rewrite total_cons, <- IH by done.
  cbn [from_option]. f_equal. f_equal.
  apply list_fmap_ext. intros i k' Hk'. rewrite decide_False; [done |].
  intros ->. apply Hk. by eapply list_elem_of_lookup_2.
Qed.

(** X21: the inner [reduce] adds one host map into another: when the map
    that is added holds numbers under names that [Object.prototype] does
    not have, and the target holds numbers under such names, the counts of
    the target afterwards add up to the sum of the two totals, and no
    other host map has changed. *)
Theorem addCounts_adds_totals (from target : nat) (h : nat -> Obj Prim) :
  from <> target -> NoDup (obj_keys (h from)) ->
  plain (h from) -> written (h target) ->
  let h' := addCounts from target h in
  total (h' target) = total (h target) + total (h from) /\
  forall l, l <> target -> h' l = h l.
Proof.
  intros Hne Hnd Hp Hw. cbv zeta. split.
  - unfold addCounts. by rewrite fold_addCount_total, total_keys.
  - intros l Hl. by apply addCounts_frame.
Qed.

Lemma addCounts_adds_totals_witness :
  let h' := addCounts 1 0 Sample.heap in
  total (h' 0%nat) = total (Sample.heap 0%nat) + total (Sample.heap 1%nat) /\
  forall l, l <> 0%nat -> h' l = Sample.heap l.
Proof.
  apply (addCounts_adds_totals 1 0 Sample.heap); [lia | | |].
  - apply (bool_decide_unpack _). reflexivity.
  - intros k v. cbn [Sample.heap obj_get].
    repeat case_decide; intros [= <-]; subst; (split; [reflexivity | eauto]).
  - intros k v. cbn [Sample.heap obj_get].
    repeat case_decide; intros [= <-]; subst;
      match goal with
      | |- match inheritedText ?key with _ => _ end =>
          change (inheritedText key) with (@None string)
      end; cbv beta iota; eauto.
Defined.

(** X22: after [process] and the merge, on datasets with distinct host
    maps, the key of an entry of the output is no key of that entry's
    [referencedHosts]: a provider is not listed among the hosts it refers
    to. *)
Theorem provider_not_among_its_references
    (h : nat -> Obj Prim) (datasetInfo : list Dataset.t) (k : string) (e : Entry.t) :
  NoDup (Dataset.hostOccurrences <$> datasetInfo) ->
  (forall d, d ∈ datasetInfo -> NoDup (obj_keys (h (Dataset.hostOccurrences d)))) ->
  obj_get (snd (summarise h datasetInfo)) k = Some e ->
  obj_get (fst (summarise h datasetInfo) (Entry.referencedHosts e)) k = None.
Proof.
  intros Hnd Hwf. unfold summarise.
  destruct (processAll_spec h datasetInfo Hnd) as (Hps & Hh & _).
  destruct (processAll h datasetInfo) as [h1 ps]. cbn [fst snd] in *.
  assert (Hrh : rh <$> ps = loc_of <$> datasetInfo).
  { rewrite Hps, <- list_fmap_compose. done. }
  assert (Hdel : ∀ p, p ∈ ps ->
            NoDup (obj_keys (h1 (rh p))) ∧ obj_get (h1 (rh p)) (keyOf p) = None).
  { intros p Hp. rewrite Hps in Hp. apply list_elem_of_fmap in Hp as (d & -> & Hd).
    change (rh (process h d).2) with (loc_of d). rewrite (Hh d Hd).
    unfold process, keyOf. cbn [fst snd Processed.mostOccurringHost].
    rewrite fn_lookup_insert. split.
    - by apply obj_delete_NoDup, Hwf.
    - by rewrite obj_get_delete, decide_True. }
  intros He.
  rewrite (reduce_counts h1 ps ltac:(by rewrite Hrh)
             (fun p Hp => proj1 (Hdel p Hp)) k e k He).
  apply merged_all_None. unfold counts. apply Forall_fmap, Forall_forall.
  intros p Hp. apply list_elem_of_In, list_elem_of_filter in Hp as [Hk Hp].
  cbn. rewrite <- Hk. by apply Hdel.
Qed.

Lemma provider_not_among_its_references_witness :
  let datasetInfo := [Sample.dataset 0; Sample.dataset 1] in
  let e := {| Entry.triples := 200;
              Entry.provenance :=
                [ {| ldf := Sample.endpoint; url := "http://foo.org/d1.nt";
                     numTriples := 100 |};
                  {| ldf := Sample.endpoint; url := "http://foo.org/d1.nt";
                     numTriples := 100 |} ];
              Entry.referencedHosts := 0%nat |} in
  obj_get (snd (summarise Sample2.heap datasetInfo)) "foo.org" = Some e /\
  obj_get (fst (summarise Sample2.heap datasetInfo) (Entry.referencedHosts e)) "foo.org"
  = None.
Proof.
  cbv zeta. split; [reflexivity |].
  apply (provider_not_among_its_references Sample2.heap
           [Sample.dataset 0; Sample.dataset 1] "foo.org").
  - apply (bool_decide_unpack _). reflexivity.
  - intros d Hd. repeat (apply elem_of_cons in Hd as [-> | Hd]);
      [apply (bool_decide_unpack _); reflexivity.. | by apply elem_of_nil in Hd].
  - reflexivity.
Defined.

(** X16: [datasetInfo.map(process)] on datasets with distinct host maps
    gives for each dataset what [process] gives for it alone, in the same
    order, and leaves every other host map as it was. *)
Theorem datasets_processed_independently (h : nat -> Obj Prim) (datasetInfo : list Dataset.t) :
  NoDup (Dataset.hostOccurrences <$> datasetInfo) ->
  let (h', processedInfo) := processAll h datasetInfo in
  processedInfo = (fun d => snd (process h d)) <$> datasetInfo /\
  (forall d, d ∈ datasetInfo ->
     h' (Dataset.hostOccurrences d) = fst (process h d) (Dataset.hostOccurrences d)) /\
  (forall l, (l ∉ Dataset.hostOccurrences <$> datasetInfo) -> h' l = h l).
Proof.
  intros Hnd. pose proof (processAll_spec h datasetInfo Hnd) as Hs.
  by destruct (processAll h datasetInfo).
Qed.

Lemma datasets_processed_independently_witness :
  let datasetInfo := [Sample.dataset 0; Sample.dataset 1] in
  let (h', processedInfo) := processAll Sample2.heap datasetInfo in
  processedInfo = (fun d => snd (process Sample2.heap d)) <$> datasetInfo /\
  (forall d, d ∈ datasetInfo ->
     h' (Dataset.hostOccurrences d)
     = fst (process Sample2.heap d) (Dataset.hostOccurrences d)) /\
  (forall l, (l ∉ Dataset.hostOccurrences <$> datasetInfo) -> h' l = Sample2.heap l).
Proof.
  apply (datasets_processed_independently Sample2.heap
           [Sample.dataset 0; Sample.dataset 1]).
  apply (bool_decide_unpack _). reflexivity.
Defined.

(** ** [getRelevantDatasets] *)

Lemma string_app_inj (p a b : string) : p ++ a = p ++ b -> a = b.
Proof. induction p as [|c p IH]; simpl; [done |]. intros [= H]. by apply IH. Qed.

(** X23: [getRelevantDatasets] resolves only for a response with status
    200 whose body parses; the datasets then match the bindings one to one
    and in order, and bindings with different [md5] give different
    [ldfEndpoint]s. *)
Theorem discovery_resolves (T : Type) (convert : string -> T)
    (bindings : string -> JSError + list Discovery.Binding)
    (showNumber : Z -> string) (r : Stream.HttpResult)
    (datasets : list (Discovery.Candidate T)) :
  Discovery.getRelevantDatasets T convert bindings showNumber r
  = Discovery.Resolved datasets ->
  exists body elems,
    r = Stream.HttpResponse 200 body /\ bindings body = inr elems /\
    length datasets = length elems /\
    Discovery.source <$> datasets = Discovery.doc <$> elems /\
    Discovery.declaredTriples <$> datasets
    = (fun elem => convert (Discovery.triples elem)) <$> elems /\
    (NoDup (Discovery.md5 <$> elems) -> NoDup (Discovery.ldfEndpoint <$> datasets)).
Proof.
  unfold Discovery.getRelevantDatasets. destruct r as [e | statusCode body]; [done |].
  case_decide as Hs; [done |]. destruct (bindings body) as [e | elems] eqn:Hb; [done |].
  intros [= <-]. exists body, elems.
  assert (statusCode = 200) as -> by (by destruct (decide (statusCode = 200))).
  change (map (Discovery.toDataset T convert) elems)
    with (Discovery.toDataset T convert <$> elems).
  rewrite length_fmap, <- !list_fmap_compose. repeat split; try done.
  intros Hnd.
  change (Discovery.ldfEndpoint ∘ Discovery.toDataset T convert)
    with ((fun m => "http://ldf.lodlaundromat.org/" ++ m) ∘ Discovery.md5).
  rewrite list_fmap_compose. apply NoDup_fmap_2; [| done].
  intros a b. apply string_app_inj.
Qed.

Lemma discovery_resolves_witness :
  let bindings : string -> JSError + list Discovery.Binding :=
    fun _ => inr Sample2.elems in
  let convert : string -> string := fun s => s in
  exists body elems,
    Stream.HttpResponse 200 "{}" = Stream.HttpResponse 200 body /\
    bindings body = inr elems /\
    length (map (Discovery.toDataset string convert) Sample2.elems) = length elems /\
    Discovery.source <$> map (Discovery.toDataset string convert) Sample2.elems
    = Discovery.doc <$> elems /\
    Discovery.declaredTriples <$> map (Discovery.toDataset string convert) Sample2.elems
    = (fun elem => convert (Discovery.triples elem)) <$> elems /\
    (NoDup (Discovery.md5 <$> elems) ->
     NoDup (Discovery.ldfEndpoint
              <$> map (Discovery.toDataset string convert) Sample2.elems)).
Proof.
  cbv zeta.
  apply (discovery_resolves string (fun s => s) (fun _ => inr Sample2.elems)
           (fun _ => "200") (Stream.HttpResponse 200 "{}")).
  reflexivity.
Defined.
